(** * OmnisentAI sensor node: the three variants of the simulation

    A shallow embedding of [OmnisentAI_Seq.cpp], [OmnisentAI_MultiThread.cpp]
    and [OmnisentAI_OpenMP.cpp].  Every method of [SensorNode] runs in a small
    reader/state monad: the machine holds the object the method is called on,
    the state of the C library's random-number generator and the console; the
    environment holds what the program cannot choose (the sequence [rand()]
    produces after a given seed, the wall clock).

    C++ [int] is a 32-bit two's-complement integer, kept in [Z] with the
    wrap-around written out in [wrap32].  A [std::vector<int>] is a [list Z];
    its indices are [nat]: [vector::max_size()] is far below [2^64 - 4], so
    the [size_t] counters of the loops never wrap (the one [size_t]
    subtraction of the source is written with its wrap-around).

    Where C++ leaves the behaviour undefined the model takes the value the
    [Z] operation gives: a shift [1 << k] with [k] outside [0, 31), a
    remainder by zero, and the unsynchronised accesses of the two threads of
    the threaded file, which are interleaved one loop iteration at a time. *)

From Stdlib Require Import ZArith Lia ZifyNat Ascii String.
From stdpp Require Import base numbers list strings pretty.

Local Open Scope Z_scope.

(** [lia] also decides goals with division and remainder by a literal. *)
Ltac Zify.zify_post_hook ::= Z.to_euclidean_division_equations.

(** ** Machine integers *)

Definition wrap32 (z : Z) : Z := (z + 2 ^ 31) `mod` 2 ^ 32 - 2 ^ 31.

(** ** The object, the machine and the environment *)

Record SensorNode := mkSensorNode {
  id : string;
  sample_rate : Z;
  bit_depth : Z;
  duration : Z;
  sleep_interval : Z
}.

(** What reaches the outside world.  [Log t msg] is a line written by [log]
    with the time [t] it read (the rendering of [t] by [put_time] is not
    modelled), [Stdout s] a raw line written to [std::cout], [Sleep n] a call
    of [sleep_for] with [n] seconds. *)
Inductive event :=
| Log (t : Z) (msg : string)
| Stdout (s : string)
| Sleep (secs : Z).

Record Machine := mkMachine {
  this : SensorNode;      (* the fields of the object *)
  rng_seed : Z;           (* the seed last given to srand *)
  rng_drawn : nat;        (* the number of rand() calls since then *)
  ticks : nat;            (* the number of clock reads so far *)
  console : list event    (* what was written, oldest first *)
}.

Record Env := mkEnv {
  rand_seq : Z -> nat -> Z;   (* seed -> k -> the k-th value of rand() *)
  wall_clock : nat -> Z       (* k -> the time seen by the k-th clock read *)
}.

(** A generator whose values are the non-negative [int]s [rand()] promises. *)
Definition rand_nonneg (e : Env) : Prop :=
  forall seed k, 0 <= rand_seq e seed k.

Definition M (A : Type) : Type := Env -> Machine -> A * Machine.

Definition ret {A} (a : A) : M A := fun _ m => (a, m).
Definition bind {A B} (c : M A) (k : A -> M B) : M B :=
  fun e m => let (a, m') := c e m in k a e m'.

Notation "x <- c ;; k" := (bind c (fun x => k))
  (at level 100, c at next level, right associativity).
Notation "c ;;; k" := (bind c (fun _ => k))
  (at level 100, right associativity).

Definition get_this : M SensorNode := fun _ m => (this m, m).

(** [std::rand()] *)
Definition rand : M Z := fun e m =>
  (rand_seq e (rng_seed m) (rng_drawn m),
   mkMachine (this m) (rng_seed m) (S (rng_drawn m)) (ticks m) (console m)).

(** [std::srand(seed)] *)
Definition srand (seed : Z) : M unit := fun _ m =>
  (tt, mkMachine (this m) (seed `mod` 2 ^ 32) 0 (ticks m) (console m)).

(** [std::time(nullptr)] and [system_clock::now()] *)
Definition time_now : M Z := fun e m =>
  (wall_clock e (ticks m),
   mkMachine (this m) (rng_seed m) (rng_drawn m) (S (ticks m)) (console m)).

Definition emit (ev : event) : M unit := fun _ m =>
  (tt, mkMachine (this m) (rng_seed m) (rng_drawn m) (ticks m) (console m ++ [ev])).

(** [SensorNode::log], the same in the three files. *)
Definition log (msg : string) : M unit :=
  now <- time_now ;; emit (Log now msg).

(** The fields the constructor's initialiser list sets. *)
Definition default_node (node_id : string) : SensorNode :=
  mkSensorNode node_id 400000 24 1 3600.

(** [SensorNode::SensorNode(node_id)], the same in the three files: the
    initialiser list, then [srand] of the current time as an [unsigned]. *)
Definition new_SensorNode (node_id : string) : M unit :=
  (fun _ m => (tt, mkMachine (default_node node_id)
                     (rng_seed m) (rng_drawn m) (ticks m) (console m))) ;;;
  t <- time_now ;;
  srand t.

(** Characters a string literal cannot hold directly. *)
Definition dquote : string := String "034"%char EmptyString.
Definition newline : string := String "010"%char EmptyString.

(** ** The sequential variant, [OmnisentAI_Seq.cpp] *)

Module Seq.

(** [(std::rand() % (2 * range)) - range] on [int]s; [%] truncates. *)
Definition sample (r range : Z) : Z :=
  wrap32 (Z.rem r (wrap32 (2 * range)) - range).

(** [for (size_t i = 0; i < data.size(); ++i) data[i] = ...] from index [i]. *)
Fixpoint fill_loop (fuel i : nat) (range : Z) (data : list Z) : M (list Z) :=
  match fuel with
  | O => ret data
  | S fuel' =>
      if bool_decide (i < length data)%nat
      then r <- rand ;; fill_loop fuel' (S i) range (<[i := sample r range]> data)
      else ret data
  end.

Definition generateAudioData : M (list Z) :=
  log "Wake: Generating dummy audio data..." ;;;
  node <- get_this ;;
  let range := wrap32 (Z.shiftl 1 (bit_depth node - 1)) in
  (* a negative product would make the vector's constructor throw; the
     constructor of SensorNode never produces one *)
  let data := replicate (Z.to_nat (wrap32 (sample_rate node * duration node))) 0 in
  fill_loop (length data) 0 range data.

(** [for (size_t i = 0; i < data.size(); i += 4) compressed.push_back(data[i])]
    from index [i]. *)
Fixpoint compress_loop (fuel i : nat) (data compressed : list Z) : list Z :=
  match fuel with
  | O => compressed
  | S fuel' =>
      if bool_decide (i < length data)%nat
      then compress_loop fuel' (i + 4) data (compressed ++ [data !!! i])
      else compressed
  end.

Definition compressData (data : list Z) : M (list Z) :=
  log "Processing: Compressing audio data..." ;;;
  ret (compress_loop (length data) 0 data []).

(** The text [sendToCloud] builds in its [ostringstream]: the loop appends
    [data[i]] for [i < min(100, data.size())], with a separator before every
    element but the first. *)
Fixpoint payload_loop (fuel i : nat) (data : list Z) (payload : string) : string :=
  match fuel with
  | O => payload
  | S fuel' =>
      if bool_decide (i < Nat.min 100 (length data))%nat
      then
        let payload := if bool_decide (0 < i)%nat then payload +:+ ", " else payload in
        payload_loop fuel' (S i) data (payload +:+ pretty (data !!! i))
      else payload
  end.

Definition payload_header (sensor_id : string) (timestamp : Z) : string :=
  "{ " +:+ dquote +:+ "sensor_id" +:+ dquote +:+ ": " +:+ dquote +:+ sensor_id
       +:+ dquote +:+ ", "
       +:+ dquote +:+ "timestamp" +:+ dquote +:+ ": " +:+ pretty timestamp +:+ ", "
       +:+ dquote +:+ "audio_data" +:+ dquote +:+ ": [".

Definition build_payload (sensor_id : string) (timestamp : Z) (data : list Z) : string :=
  payload_loop 100 0 data (payload_header sensor_id timestamp) +:+ "] }".

Definition sendToCloud (data : list Z) : M bool :=
  log "Transmit: Preparing payload..." ;;;
  node <- get_this ;;
  timestamp <- time_now ;;
  let payload := build_payload (id node) timestamp data in
  r <- rand ;;
  let success := bool_decide (Z.rem r 10 < 9) in
  (if success
   then log "Transmit: Sending data to cloud..." ;;;
        emit (Stdout (substring 0 120 payload +:+ " ..."))
   else log "Transmit: Failed to send data.") ;;;
  ret success.

Definition runCycle : M unit :=
  log "---- Sensor Cycle Start ----" ;;;
  audio <- generateAudioData ;;
  compressed <- compressData audio ;;
  ok <- sendToCloud compressed ;;
  (if negb ok then log "Error: Transmission failed. Logging for retry." else ret tt) ;;;
  log ("Sleep: Entering sleep mode..." +:+ newline) ;;;
  emit (Sleep 2).

(** [for (int i = 0; i < 3; ++i) node.runCycle();] from counter [i]. *)
Fixpoint cycles (fuel : nat) (i : Z) : M unit :=
  match fuel with
  | O => ret tt
  | S fuel' => if bool_decide (i < 3) then runCycle ;;; cycles fuel' (wrap32 (i + 1)) else ret tt
  end.

Definition main : M Z :=
  new_SensorNode "sensor_001" ;;;
  cycles 3 0 ;;;
  ret 0.

End Seq.

(** ** The variant with two worker threads, [OmnisentAI_MultiThread.cpp] *)

Module MultiThread.

Definition sample (r range : Z) : Z :=
  wrap32 (Z.rem r (wrap32 (2 * range)) - range).

(** *** The two methods, each run from its first to its last statement *)

Fixpoint fill_loop (fuel i : nat) (range : Z) (data : list Z) : M (list Z) :=
  match fuel with
  | O => ret data
  | S fuel' =>
      if bool_decide (i < length data)%nat
      then r <- rand ;; fill_loop fuel' (S i) range (<[i := sample r range]> data)
      else ret data
  end.

(** [data] is the vector passed by reference; the result is its final content. *)
Definition generateAudioData (data : list Z) : M (list Z) :=
  log "Wake: Generating dummy audio data..." ;;;
  node <- get_this ;;
  let range := wrap32 (Z.shiftl 1 (bit_depth node - 1)) in
  fill_loop (length data) 0 range data.

Fixpoint compress_loop (fuel i : nat) (data compressed : list Z) : list Z :=
  match fuel with
  | O => compressed
  | S fuel' =>
      if bool_decide (i < length data)%nat
      then compress_loop fuel' (i + 4) data (compressed ++ [data !!! i])
      else compressed
  end.

(** [compressed] is the vector passed by reference; the result is its final
    content, when [data] does not change during the call. *)
Definition compressData (data compressed : list Z) : M (list Z) :=
  log "Processing: Compressing audio data..." ;;;
  ret (compress_loop (length data) 0 data compressed).

(** [sendToCloud] has the same text as in the sequential file. *)
Definition sendToCloud : list Z -> M bool := Seq.sendToCloud.

(** *** The two methods as threads

    [runCycle] starts [generateAudioData] and [compressData] as two threads on
    the same [audio] vector.  A thread advances by atomic steps: the call of
    [log] on entry, then one loop iteration (guard and body) per step.  [Par]
    holds the two vectors of [runCycle] and what is local to each thread. *)

Inductive pc := Entry | Loop (i : nat) | Done.

Record Par := mkPar {
  gen_pc : pc;             (* where t1 is, with its counter i *)
  gen_range : Z;           (* the local variable range of t1 *)
  comp_pc : pc;            (* where t2 is, with its counter i *)
  audio : list Z;          (* std::vector<int> audio of runCycle *)
  compressed : list Z      (* std::vector<int> compressed of runCycle *)
}.

Definition step_generate (p : Par) : M Par :=
  match gen_pc p with
  | Entry =>
      log "Wake: Generating dummy audio data..." ;;;
      node <- get_this ;;
      let range := wrap32 (Z.shiftl 1 (bit_depth node - 1)) in
      ret (mkPar (Loop 0) range (comp_pc p) (audio p) (compressed p))
  | Loop i =>
      if bool_decide (i < length (audio p))%nat
      then r <- rand ;;
           ret (mkPar (Loop (S i)) (gen_range p) (comp_pc p)
                      (<[i := sample r (gen_range p)]> (audio p)) (compressed p))
      else ret (mkPar Done (gen_range p) (comp_pc p) (audio p) (compressed p))
  | Done => ret p
  end.

Definition step_compress (p : Par) : M Par :=
  match comp_pc p with
  | Entry =>
      log "Processing: Compressing audio data..." ;;;
      ret (mkPar (gen_pc p) (gen_range p) (Loop 0) (audio p) (compressed p))
  | Loop i =>
      if bool_decide (i < length (audio p))%nat
      then ret (mkPar (gen_pc p) (gen_range p) (Loop (i + 4)) (audio p)
                      (compressed p ++ [audio p !!! i]))
      else ret (mkPar (gen_pc p) (gen_range p) Done (audio p) (compressed p))
  | Done => ret p
  end.

Inductive tid := T1 | T2.

Definition step (t : tid) (p : Par) : M Par :=
  match t with T1 => step_generate p | T2 => step_compress p end.

(** The scheduler's choices while both threads are running: the thread named
    next takes one step (none when it has returned already). *)
Fixpoint run_schedule (sched : list tid) (p : Par) : M Par :=
  match sched with
  | [] => ret p
  | t :: sched' => p' <- step t p ;; run_schedule sched' p'
  end.

(** [t.join()]: the caller waits while thread [t] takes its remaining steps. *)
Fixpoint join (fuel : nat) (t : tid) (p : Par) : M Par :=
  match fuel with
  | O => ret p
  | S fuel' => p' <- step t p ;; join fuel' t p'
  end.

(** Lines 89 to 93 of [runCycle]: both threads are started on the two
    vectors, [sched] is what the scheduler does until the caller reaches
    [t1.join()], and the two joins let each thread finish.  A thread needs at
    most [audio.size() + 2] steps. *)
Definition fork_join (sched : list tid) (audio compressed : list Z) : M Par :=
  p <- run_schedule sched (mkPar Entry 0 Entry audio compressed) ;;
  p <- join (length audio + 2) T1 p ;;
  join (length audio + 2) T2 p.

Definition runCycle (sched : list tid) : M unit :=
  log "---- Sensor Cycle Start ----" ;;;
  node <- get_this ;;
  let audio := replicate (Z.to_nat (wrap32 (sample_rate node * duration node))) 0 in
  let compressed := [] in
  p <- fork_join sched audio compressed ;;
  ok <- sendToCloud (MultiThread.compressed p) ;;
  (if negb ok then log "Error: Transmission failed. Logging for retry." else ret tt) ;;;
  log ("Sleep: Entering sleep mode..." +:+ newline) ;;;
  emit (Sleep 2).

(** [scheds i] is the scheduler's behaviour during cycle [i]. *)
Fixpoint cycles (scheds : Z -> list tid) (fuel : nat) (i : Z) : M unit :=
  match fuel with
  | O => ret tt
  | S fuel' =>
      if bool_decide (i < 3)
      then runCycle (scheds i) ;;; cycles scheds fuel' (wrap32 (i + 1))
      else ret tt
  end.

Definition main (scheds : Z -> list tid) : M Z :=
  new_SensorNode "sensor_001" ;;;
  cycles scheds 3 0 ;;;
  ret 0.

End MultiThread.

(** ** The threaded file with [log] in its steps

    [SensorNode::log] is not one action: it reads the clock, inserts ["["]
    into [std::cout], calls [std::localtime], which fills a [struct tm] that
    is static inside the C library and returns its address, inserts
    [put_time] of that address, which reads the [struct tm] when it is
    inserted, then inserts ["] "], the message and [endl] (the operands of
    [<<] are evaluated left to right).  While one thread runs alone the
    whole-line [log] above is these steps in a row ([log_alone_is_log]
    below); of the two worker threads either can be anywhere in them when
    the other moves.  This module runs the workers of [MultiThread] with the
    steps of [log] as steps of the thread. *)

Module Threads.

(** What is inserted into [std::cout], and the sleep of the caller. *)
Inductive fragment :=
| Text (s : string)      (* cout << s *)
| Stamp (t : Z)          (* cout << put_time(p, ...) when the struct tm at p holds time t *)
| Endl                   (* cout << endl *)
| Pause (secs : Z).      (* sleep_for *)

Record FMachine := mkFMachine {
  base : Machine;        (* the node, the generator and the clock; its console stays as it is *)
  tm_static : Z;         (* the static struct tm of std::localtime, as the time it holds *)
  cout : list fragment   (* what was inserted, oldest first *)
}.

Definition FM (A : Type) : Type := Env -> FMachine -> A * FMachine.

Definition fret {A} (a : A) : FM A := fun _ fm => (a, fm).
Definition fbind {A B} (c : FM A) (k : A -> FM B) : FM B :=
  fun e fm => let (a, fm') := c e fm in k a e fm'.

(** A line of the whole-line model as the insertions that make it. *)
Definition render (ev : event) : list fragment :=
  match ev with
  | Log t msg => [Text "["; Stamp t; Text "] "; Text msg; Endl]
  | Stdout s => [Text s; Endl]
  | Sleep secs => [Pause secs]
  end.

(** The time the static [struct tm] holds after the lines [evs] were logged. *)
Definition last_log_time (evs : list event) (before : Z) : Z :=
  foldl (fun t ev => match ev with Log t' _ => t' | _ => t end) before evs.

(** Code of the whole-line model run by the only thread there is. *)
Definition lift {A} (c : M A) : FM A := fun e fm =>
  let (a, m') := c e (mkMachine (this (base fm)) (rng_seed (base fm))
                        (rng_drawn (base fm)) (ticks (base fm)) []) in
  (a, mkFMachine
        (mkMachine (this m') (rng_seed m') (rng_drawn m') (ticks m') (console (base fm)))
        (last_log_time (console m') (tm_static fm))
        (cout fm ++ flat_map render (console m'))).

Definition put (f : fragment) : FM unit := fun _ fm =>
  (tt, mkFMachine (base fm) (tm_static fm) (cout fm ++ [f])).

(** Step [k] of [log(msg)] in a thread whose local [now] holds [now]; the
    result is the next step and the local, or [None] when [log] returns. *)
Definition log_step (msg : string) (k : nat) (now : Z) : FM (option (nat * Z)) :=
  match k with
  | 0%nat => fun e fm =>
      let (t, m') := time_now e (base fm) in
      (Some (1%nat, t), mkFMachine m' (tm_static fm) (cout fm))
  | 1%nat => fbind (put (Text "[")) (fun _ => fret (Some (2%nat, now)))
  | 2%nat => fun _ fm =>
      (Some (3%nat, now), mkFMachine (base fm) now (cout fm))
  | 3%nat => fun e fm =>
      fbind (put (Stamp (tm_static fm))) (fun _ => fret (Some (4%nat, now))) e fm
  | 4%nat => fbind (put (Text "] ")) (fun _ => fret (Some (5%nat, now)))
  | 5%nat => fbind (put (Text msg)) (fun _ => fret (Some (6%nat, now)))
  | _ => fbind (put Endl) (fun _ => fret None)
  end.

(** The two workers: the vectors and counters of [MultiThread.Par], and for
    each thread the step of [log] it is at while its counter is [Entry]. *)
Record FPar := mkFPar {
  par : MultiThread.Par;
  gen_at : nat * Z;
  comp_at : nat * Z
}.

(** [generateAudioData] in thread t1. *)
Definition step_generate (fp : FPar) : FM FPar :=
  match MultiThread.gen_pc (par fp) with
  | MultiThread.Entry => fun e fm =>
      let (next, fm') :=
        log_step "Wake: Generating dummy audio data..." (fst (gen_at fp)) (snd (gen_at fp)) e fm in
      match next with
      | Some at' => (mkFPar (par fp) at' (comp_at fp), fm')
      | None =>
          let range := wrap32 (Z.shiftl 1 (bit_depth (this (base fm')) - 1)) in
          (mkFPar (MultiThread.mkPar (MultiThread.Loop 0) range
                     (MultiThread.comp_pc (par fp)) (MultiThread.audio (par fp))
                     (MultiThread.compressed (par fp)))
                  (gen_at fp) (comp_at fp), fm')
      end
  | _ => fun e fm =>
      let (p', m') := MultiThread.step_generate (par fp) e (base fm) in
      (mkFPar p' (gen_at fp) (comp_at fp), mkFMachine m' (tm_static fm) (cout fm))
  end.

(** [compressData] in thread t2. *)
Definition step_compress (fp : FPar) : FM FPar :=
  match MultiThread.comp_pc (par fp) with
  | MultiThread.Entry => fun e fm =>
      let (next, fm') :=
        log_step "Processing: Compressing audio data..." (fst (comp_at fp)) (snd (comp_at fp)) e fm in
      match next with
      | Some at' => (mkFPar (par fp) (gen_at fp) at', fm')
      | None =>
          (mkFPar (MultiThread.mkPar (MultiThread.gen_pc (par fp))
                     (MultiThread.gen_range (par fp)) (MultiThread.Loop 0)
                     (MultiThread.audio (par fp)) (MultiThread.compressed (par fp)))
                  (gen_at fp) (comp_at fp), fm')
      end
  | _ => fun e fm =>
      let (p', m') := MultiThread.step_compress (par fp) e (base fm) in
      (mkFPar p' (gen_at fp) (comp_at fp), mkFMachine m' (tm_static fm) (cout fm))
  end.

Definition step (t : MultiThread.tid) (fp : FPar) : FM FPar :=
  match t with MultiThread.T1 => step_generate fp | MultiThread.T2 => step_compress fp end.

Fixpoint run_schedule (sched : list MultiThread.tid) (fp : FPar) : FM FPar :=
  match sched with
  | [] => fret fp
  | t :: sched' => fbind (step t fp) (run_schedule sched')
  end.

Fixpoint join (fuel : nat) (t : MultiThread.tid) (fp : FPar) : FM FPar :=
  match fuel with
  | O => fret fp
  | S fuel' => fbind (step t fp) (join fuel' t)
  end.

(** Both threads at the first statement of their method. *)
Definition started (audio compressed : list Z) : FPar :=
  mkFPar (MultiThread.mkPar MultiThread.Entry 0 MultiThread.Entry audio compressed)
         (0%nat, 0) (0%nat, 0).

(** Lines 89 to 93 of [runCycle]; a thread needs at most [audio.size() + 8]
    steps, 7 of them in [log]. *)
Definition fork_join (sched : list MultiThread.tid) (audio compressed : list Z) : FM FPar :=
  fbind (run_schedule sched (started audio compressed)) (fun fp =>
  fbind (join (length audio + 8) MultiThread.T1 fp) (fun fp =>
  join (length audio + 8) MultiThread.T2 fp)).

(** What [runCycle] does with the result of [sendToCloud]. *)
Definition after_send (ok : bool) : FM unit :=
  fbind (lift (if negb ok then log "Error: Transmission failed. Logging for retry."
               else ret tt)) (fun _ =>
  fbind (lift (log ("Sleep: Entering sleep mode..." +:+ newline))) (fun _ =>
  lift (emit (Sleep 2)))).

Definition runCycle (sched : list MultiThread.tid) : FM unit :=
  fbind (lift (log "---- Sensor Cycle Start ----")) (fun _ =>
  fbind (lift get_this) (fun node =>
  let audio := replicate (Z.to_nat (wrap32 (sample_rate node * duration node))) 0 in
  let compressed := [] in
  fbind (fork_join sched audio compressed) (fun fp =>
  fbind (lift (MultiThread.sendToCloud (MultiThread.compressed (par fp)))) after_send))).

End Threads.

(** ** The variant with OpenMP loops, [OmnisentAI_OpenMP.cpp]

    A [#pragma omp parallel for] runs every iteration of its loop once, in an
    order the runtime chooses; the order is an argument of the model.  The
    body of the compression loop is a critical section and [rand()] takes a
    lock, so an iteration is one atomic step. *)

Module OpenMP.

(** The iterations of [for (i = 0; i < n; i += stride)]. *)
Definition omp_iterations (n stride : nat) : list nat :=
  (fun k => (stride * k)%nat) <$> seq 0 ((n + stride - 1) / stride).

(** The orders the runtime may choose for such a loop. *)
Definition omp_schedule (n stride : nat) (order : list nat) : Prop :=
  order ≡ₚ omp_iterations n stride.

Definition sample (r range : Z) : Z :=
  wrap32 (Z.rem r (wrap32 (2 * range)) - range).

Fixpoint fill_iterations (order : list nat) (range : Z) (data : list Z) : M (list Z) :=
  match order with
  | [] => ret data
  | i :: order' =>
      r <- rand ;; fill_iterations order' range (<[i := sample r range]> data)
  end.

Definition generateAudioData (order : list nat) : M (list Z) :=
  log "Wake: Generating dummy audio data..." ;;;
  node <- get_this ;;
  let range := wrap32 (Z.shiftl 1 (bit_depth node - 1)) in
  let data := replicate (Z.to_nat (wrap32 (sample_rate node * duration node))) 0 in
  fill_iterations order range data.

Fixpoint compress_iterations (order : list nat) (data compressed : list Z) : list Z :=
  match order with
  | [] => compressed
  | i :: order' => compress_iterations order' data (compressed ++ [data !!! i])
  end.

(** [compressed.reserve] changes the capacity only. *)
Definition compressData (order : list nat) (data : list Z) : M (list Z) :=
  log "Processing: Compressing audio data..." ;;;
  ret (compress_iterations order data []).

(** Here the separator follows the element: it is written when
    [i < 99 && i < data.size() - 1], the subtraction being on [size_t]. *)
Fixpoint payload_loop (fuel i : nat) (data : list Z) (payload : string) : string :=
  match fuel with
  | O => payload
  | S fuel' =>
      if bool_decide (i < Nat.min 100 (length data))%nat
      then
        let payload := payload +:+ pretty (data !!! i) in
        let payload :=
          if bool_decide (i < 99)%nat &&
             bool_decide (Z.of_nat i < (Z.of_nat (length data) - 1) `mod` 2 ^ 64)
          then payload +:+ ", " else payload in
        payload_loop fuel' (S i) data payload
      else payload
  end.

Definition payload_header (sensor_id : string) (timestamp : Z) : string :=
  "{" +:+ newline
      +:+ "  " +:+ dquote +:+ "sensor_id" +:+ dquote +:+ ": " +:+ dquote +:+ sensor_id
      +:+ dquote +:+ "," +:+ newline
      +:+ "  " +:+ dquote +:+ "timestamp" +:+ dquote +:+ ": " +:+ pretty timestamp
      +:+ "," +:+ newline
      +:+ "  " +:+ dquote +:+ "audio_data" +:+ dquote +:+ ": [".

Definition build_payload (sensor_id : string) (timestamp : Z) (data : list Z) : string :=
  payload_loop 100 0 data (payload_header sensor_id timestamp) +:+ "]" +:+ newline +:+ "}".

Definition sendToCloud (data : list Z) : M bool :=
  log "Transmit: Preparing payload..." ;;;
  node <- get_this ;;
  timestamp <- time_now ;;
  let payload := build_payload (id node) timestamp data in
  r <- rand ;;
  let success := bool_decide (Z.rem r 10 < 9) in
  (if success
   then log "Transmit: Sending data to cloud..." ;;;
        emit (Stdout (substring 0 120 payload +:+ " ..."))
   else log "Transmit: Failed to send data.") ;;;
  ret success.

Definition runCycle (gen_order comp_order : list nat) : M unit :=
  log "---- Sensor Cycle Start ----" ;;;
  audio <- generateAudioData gen_order ;;
  compressed <- compressData comp_order audio ;;
  ok <- sendToCloud compressed ;;
  (if negb ok then log "Error: Transmission failed. Logging for retry." else ret tt) ;;;
  log ("Sleep: Entering sleep mode..." +:+ newline) ;;;
  emit (Sleep 2).

End OpenMP.

(** ** The fill loop of the OpenMP file beside the other cycles

    [main] of the OpenMP file runs its three cycles in a parallel loop, each
    on a node of its own; the generator of the C library is one for the
    process.  While one cycle fills its vector the other threads may call
    [rand()] (in their own fill loop or in [sendToCloud]) and [srand()] (in
    the constructor of their node).  Here every iteration of the fill loop
    comes with what the other threads did to the generator since the
    iteration before. *)

Module OpenMPShared.

Inductive rng_use :=
| OtherRand                 (* another thread called rand() *)
| OtherSrand (seed : Z).    (* another thread called srand(seed) *)

Definition other (u : rng_use) : M unit :=
  match u with
  | OtherRand => r <- rand ;; ret tt
  | OtherSrand seed => srand seed
  end.

Fixpoint others (us : list rng_use) : M unit :=
  match us with
  | [] => ret tt
  | u :: us' => other u ;;; others us'
  end.

Fixpoint fill_iterations (order : list (list rng_use * nat)) (range : Z)
    (data : list Z) : M (list Z) :=
  match order with
  | [] => ret data
  | (us, i) :: order' =>
      others us ;;;
      r <- rand ;;
      fill_iterations order' range (<[i := OpenMP.sample r range]> data)
  end.

Definition generateAudioData (order : list (list rng_use * nat)) : M (list Z) :=
  log "Wake: Generating dummy audio data..." ;;;
  node <- get_this ;;
  let range := wrap32 (Z.shiftl 1 (bit_depth node - 1)) in
  let data := replicate (Z.to_nat (wrap32 (sample_rate node * duration node))) 0 in
  fill_iterations order range data.

(** No other thread used the generator during the call. *)
Definition alone (order : list (list rng_use * nat)) : Prop :=
  Forall (fun it => fst it = []) order.

End OpenMPShared.

(** ** Reference definitions, in the words of the specification *)

(** The elements at indices 0, 4, 8, ... in their original order. *)
Definition every_4th (data : list Z) : list Z :=
  (fun k => data !!! (4 * k)%nat) <$> seq 0 ((length data + 3) / 4).

(** The decimal renderings of the first [min(100, length)] elements, in
    order, separated by a comma and a space. *)
Fixpoint comma_separated (items : list string) : string :=
  match items with
  | [] => EmptyString
  | [x] => x
  | x :: rest => x +:+ ", " +:+ comma_separated rest
  end.

Definition embedded (data : list Z) : string :=
  comma_separated (pretty <$> take (Nat.min 100 (length data)) data).

(** ** Auxiliary definitions of the proofs *)

(** Every item preceded by the separator. *)
Definition sep_tail (items : list string) : string :=
  foldr (fun x s => ", " +:+ x +:+ s) EmptyString items.

(** The machine after [k] more calls of [rand()]. *)
Definition draws (k : nat) (m : Machine) : Machine :=
  mkMachine (this m) (rng_seed m) (rng_drawn m + k) (ticks m) (console m).

(** A vector whose positions from [i] on hold the samples made of the next
    draws of the generator, in order, the draw for position [i] being the
    first one machine [m] would give. *)
Definition filled (e : Env) (m : Machine) (i : nat) (range : Z) (data : list Z) : list Z :=
  imap (fun j x =>
          if bool_decide (i <= j)%nat
          then Seq.sample (rand_seq e (rng_seed m) (rng_drawn m + (j - i))) range
          else x) data.

(** The length of the vector [generateAudioData] allocates. *)
Definition buffer_size (node : SensorNode) : nat :=
  Z.to_nat (wrap32 (sample_rate node * duration node)).

(** The machine with the console replaced. *)
Definition with_console (h : list event) (m : Machine) : Machine :=
  mkMachine (this m) (rng_seed m) (rng_drawn m) (ticks m) h.

(** A computation that only appends to the console: what was written before
    has no influence on what it returns, on the machine it leaves or on what
    it writes. *)
Definition appends_only {A} (c : M A) : Prop :=
  forall e m h,
    c e (with_console (h ++ console m) m) =
    (fst (c e m), with_console (h ++ console (snd (c e m))) (snd (c e m))).

(** A computation that leaves the fields of the object as they were. *)
Definition keeps_this {A} (c : M A) : Prop :=
  forall e m, this (snd (c e m)) = this m.

(** What holds of the generator thread at every point of a run of
    [fork_join] started on machine [m0] and vector [audio0], whatever the
    compressor thread does in between: the samples still to be written are
    those the generator would write running alone. *)
Definition gen_inv (e : Env) (m0 : Machine) (audio0 : list Z)
    (p : MultiThread.Par) (mc : Machine) : Prop :=
  let range0 := wrap32 (Z.shiftl 1 (bit_depth (this m0) - 1)) in
  let n := length audio0 in
  this mc = this m0 /\ rng_seed mc = rng_seed m0 /\
  length (MultiThread.audio p) = n /\
  match MultiThread.gen_pc p with
  | MultiThread.Entry =>
      MultiThread.audio p = audio0 /\ rng_drawn mc = rng_drawn m0
  | MultiThread.Loop i =>
      MultiThread.gen_range p = range0 /\ (i <= n)%nat /\
      rng_drawn mc = (rng_drawn m0 + i)%nat /\
      filled e mc i range0 (MultiThread.audio p) = filled e m0 0 range0 audio0
  | MultiThread.Done =>
      rng_drawn mc = (rng_drawn m0 + n)%nat /\
      MultiThread.audio p = filled e m0 0 range0 audio0
  end.

(** A vector each position of which holds what [audio0] holds there or what
    [final] holds there. *)
Definition either_sample (audio0 final cur : list Z) : Prop :=
  forall j, cur !! j = audio0 !! j \/ cur !! j = final !! j.

(** What holds of the compressor thread at every point of a run of
    [fork_join]: its counter is four times the number of elements stored, it
    has not passed the end of the vector by a whole stride, and element [k]
    stored is what position [4 * k] held before the run or holds after it. *)
Definition comp_inv (audio0 final : list Z) (p : MultiThread.Par) : Prop :=
  let c := MultiThread.compressed p in
  (forall k, (k < length c)%nat ->
     c !! k = audio0 !! (4 * k)%nat \/ c !! k = final !! (4 * k)%nat) /\
  match MultiThread.comp_pc p with
  | MultiThread.Entry => c = []
  | MultiThread.Loop i => i = (4 * length c)%nat /\ (i < length audio0 + 4)%nat
  | MultiThread.Done => length c = ((length audio0 + 3) / 4)%nat
  end.

(** The three facts together, for a run started on [m0] and [audio0]. *)
Definition race_inv (e : Env) (m0 : Machine) (audio0 : list Z)
    (p : MultiThread.Par) (mc : Machine) : Prop :=
  let final :=
    filled e m0 0 (wrap32 (Z.shiftl 1 (bit_depth (this m0) - 1))) audio0 in
  gen_inv e m0 audio0 p mc /\
  either_sample audio0 final (MultiThread.audio p) /\
  comp_inv audio0 final p.

(** An upper bound on the steps thread [t] still takes before it returns. *)
Definition steps_left (t : MultiThread.tid) (fp : Threads.FPar) : nat :=
  let n := length (MultiThread.audio (Threads.par fp)) in
  let left (at_pc : MultiThread.pc) (k : nat) :=
    match at_pc with
    | MultiThread.Entry => (Nat.max 1 (7 - k) + n + 1)%nat
    | MultiThread.Loop i => (n - i + 1)%nat
    | MultiThread.Done => 0%nat
    end in
  match t with
  | MultiThread.T1 => left (MultiThread.gen_pc (Threads.par fp)) (fst (Threads.gen_at fp))
  | MultiThread.T2 => left (MultiThread.comp_pc (Threads.par fp)) (fst (Threads.comp_at fp))
  end.

(** The counter of thread [t]. *)
Definition pc_of (t : MultiThread.tid) (fp : Threads.FPar) : MultiThread.pc :=
  match t with
  | MultiThread.T1 => MultiThread.gen_pc (Threads.par fp)
  | MultiThread.T2 => MultiThread.comp_pc (Threads.par fp)
  end.

(** A thread that has inserted the message of its [log] call has it among
    the fragments [w] written since the threads were started. *)
Definition line_written (at_pc : MultiThread.pc) (k : nat) (msg : string)
    (w : list Threads.fragment) : Prop :=
  (at_pc <> MultiThread.Entry \/ (6 <= k)%nat) -> Threads.Text msg ∈ w.

(** What holds at every point of a run of [Threads.fork_join] started on
    machine [m0], vector [audio0] and output [cout0]. *)
Definition threads_inv (e : Env) (m0 : Machine) (audio0 : list Z)
    (cout0 : list Threads.fragment)
    (fp : Threads.FPar) (fm : Threads.FMachine) : Prop :=
  race_inv e m0 audio0 (Threads.par fp) (Threads.base fm) /\
  exists w,
    Threads.cout fm = cout0 ++ w /\
    line_written (MultiThread.gen_pc (Threads.par fp)) (fst (Threads.gen_at fp))
      "Wake: Generating dummy audio data..." w /\
    line_written (MultiThread.comp_pc (Threads.par fp)) (fst (Threads.comp_at fp))
      "Processing: Compressing audio data..." w.

Arguments wrap32 : simpl never.
Arguments Seq.sample : simpl never.
Arguments buffer_size : simpl never.
Arguments Seq.build_payload : simpl never.
Arguments OpenMP.build_payload : simpl never.

(** ** Facts about the compression loops *)

Lemma compress_loop_spec data : forall fuel i compressed,
  (length data <= i + 4 * fuel)%nat ->
  Seq.compress_loop fuel i data compressed =
  compressed ++ ((fun k => data !!! (i + 4 * k)%nat) <$> seq 0 ((length data - i + 3) / 4)).
Proof.
  induction fuel as [|fuel IH]; intros i acc Hfuel; cbn [Seq.compress_loop].
  - replace ((length data - i + 3) / 4)%nat with 0%nat by lia.
    cbn. by rewrite app_nil_r.
  - case_bool_decide as Hi.
    + rewrite IH by lia.
      replace ((length data - i + 3) / 4)%nat
        with (S ((length data - (i + 4) + 3) / 4)) by lia.
      rewrite <- app_assoc. cbn [seq fmap list_fmap app]. f_equal.
      rewrite Nat.mul_0_r, Nat.add_0_r. f_equal.
      rewrite <- fmap_S_seq, <- list_fmap_compose.
      apply list_fmap_ext. intros _ k _. simpl. f_equal. lia.
    + replace ((length data - i + 3) / 4)%nat with 0%nat by lia.
      cbn. by rewrite app_nil_r.
Qed.

(** The loop leaves through its guard: fuel beyond the trip count is not used. *)
Lemma compress_loop_fuel data fuel fuel' i compressed :
  (length data <= i + 4 * fuel)%nat -> (length data <= i + 4 * fuel')%nat ->
  Seq.compress_loop fuel i data compressed = Seq.compress_loop fuel' i data compressed.
Proof. intros H1 H2. by rewrite !compress_loop_spec. Qed.

Lemma MultiThread_compress_loop_eq : MultiThread.compress_loop = Seq.compress_loop.
Proof. reflexivity. Qed.

Lemma every_4th_length data : length (every_4th data) = ((length data + 3) / 4)%nat.
Proof. unfold every_4th. by rewrite length_fmap, length_seq. Qed.

Lemma every_4th_lookup data k : every_4th data !! k = data !! (4 * k)%nat.
Proof.
  unfold every_4th. rewrite list_lookup_fmap.
  destruct (decide (4 * k < length data)%nat) as [Hk|Hk].
  - rewrite lookup_seq_lt by lia. rewrite Nat.add_0_l.
    destruct (lookup_lt_is_Some_2 data (4 * k)%nat Hk) as [x Hx].
    rewrite Hx. cbn [fmap option_fmap option_map]. f_equal.
    by apply list_lookup_total_correct.
  - rewrite lookup_seq_ge by lia. cbn [fmap option_fmap option_map].
    symmetry. apply lookup_ge_None. lia.
Qed.

Lemma log_run msg e m :
  log msg e m =
  (tt, mkMachine (this m) (rng_seed m) (rng_drawn m) (S (ticks m))
         (console m ++ [Log (wall_clock e (ticks m)) msg])).
Proof. reflexivity. Qed.

Lemma Seq_compressData_result data e m :
  fst (Seq.compressData data e m) = every_4th data.
Proof.
  unfold Seq.compressData, bind, ret. rewrite log_run. simpl.
  rewrite compress_loop_spec by lia. simpl. unfold every_4th.
  by rewrite Nat.sub_0_r.
Qed.

Lemma MultiThread_compressData_result data compressed e m :
  fst (MultiThread.compressData data compressed e m) = compressed ++ every_4th data.
Proof.
  unfold MultiThread.compressData, bind, ret. rewrite log_run. simpl.
  rewrite MultiThread_compress_loop_eq, compress_loop_spec by lia. unfold every_4th.
  by rewrite Nat.sub_0_r.
Qed.

(** An order the runtime may choose visits the indices 0, 4, 8, ... once each. *)
Lemma compress_iterations_spec data : forall order compressed,
  OpenMP.compress_iterations order data compressed =
  compressed ++ ((fun i => data !!! i) <$> order).
Proof.
  induction order as [|i order IH]; intros acc; simpl.
  - by rewrite app_nil_r.
  - rewrite IH. by rewrite <- app_assoc.
Qed.

Lemma OpenMP_compressData_length order data e m :
  OpenMP.omp_schedule (length data) 4 order ->
  length (fst (OpenMP.compressData order data e m)) = ((length data + 3) / 4)%nat.
Proof.
  intros Hs. unfold OpenMP.compressData, bind, ret. rewrite log_run. cbn [fst].
  rewrite compress_iterations_spec, app_nil_l, length_fmap.
  unfold OpenMP.omp_schedule in Hs. rewrite Hs.
  unfold OpenMP.omp_iterations. rewrite length_fmap, length_seq.
  f_equal. lia.
Qed.

(** ** C1 and C3: what [compressData] returns *)

(** C1. For every input list, [compressData] (sequential file, and the
    threaded file's version called on an empty output vector) returns the
    elements of the input at indices 0, 4, 8, ... in their order, unchanged:
    position [k] of the result holds what position [4 * k] of the input
    holds, and the result ends where the input does. *)
Theorem C1_compressData_every_4th (data : list Z) (e : Env) (m : Machine) :
  (forall k, fst (Seq.compressData data e m) !! k = data !! (4 * k)%nat) /\
  (forall k, fst (MultiThread.compressData data [] e m) !! k = data !! (4 * k)%nat) /\
  fst (Seq.compressData data e m) = every_4th data.
Proof.
  split; [|split].
  - intros k. rewrite Seq_compressData_result. apply every_4th_lookup.
  - intros k. rewrite MultiThread_compressData_result. apply every_4th_lookup.
  - apply Seq_compressData_result.
Qed.

(** C3. For an input of length [n] the list [compressData] returns has
    [ceil(n / 4)] elements, in the sequential file and, for every order the
    OpenMP runtime may run the iterations in, in the OpenMP file; it is empty
    exactly when the input is. *)
Theorem C3_compressData_length (data : list Z) (e : Env) (m : Machine) :
  length (fst (Seq.compressData data e m)) = ((length data + 3) / 4)%nat /\
  (fst (Seq.compressData data e m) = [] <-> data = []) /\
  (forall order, OpenMP.omp_schedule (length data) 4 order ->
     length (fst (OpenMP.compressData order data e m)) = ((length data + 3) / 4)%nat /\
     (fst (OpenMP.compressData order data e m) = [] <-> data = [])).
Proof.
  assert (Hnil : forall l : list Z,
            length l = ((length data + 3) / 4)%nat -> l = [] <-> data = []).
  { intros l Hl. rewrite <- !length_zero_iff_nil, Hl. lia. }
  assert (Hseq : length (fst (Seq.compressData data e m)) = ((length data + 3) / 4)%nat).
  { rewrite Seq_compressData_result. apply every_4th_length. }
  split; [exact Hseq|]. split; [by apply Hnil|].
  intros order Hs.
  pose proof (OpenMP_compressData_length order data e m Hs) as Homp.
  split; [exact Homp|by apply Hnil].
Qed.

Lemma C3_compressData_length_witness :
  OpenMP.omp_schedule (length [10; 11; 12; 13; 14]) 4 [4; 0]%nat /\
  length (fst (OpenMP.compressData [4; 0]%nat [10; 11; 12; 13; 14]
                 (mkEnv (fun _ _ => 0) (fun _ => 0))
                 (mkMachine (default_node "sensor_001") 1 0 0 []))) = 2%nat.
Proof.
  assert (Hs : OpenMP.omp_schedule (length [10; 11; 12; 13; 14]) 4 [4; 0]%nat).
  { unfold OpenMP.omp_schedule. vm_compute. apply perm_swap. }
  split; [exact Hs|].
  exact (proj1 (proj2 (proj2 (C3_compressData_length [10; 11; 12; 13; 14]
           (mkEnv (fun _ _ => 0) (fun _ => 0))
           (mkMachine (default_node "sensor_001") 1 0 0 []))) [4; 0]%nat Hs)).
Defined.

(** ** Facts about the generation loops *)

Lemma wrap32_small z : - 2 ^ 31 <= z < 2 ^ 31 -> wrap32 z = z.
Proof. intros Hz. unfold wrap32. rewrite Z.mod_small; lia. Qed.

Lemma draws_0 m : draws 0 m = m.
Proof. destruct m. unfold draws. simpl. by rewrite Nat.add_0_r. Qed.

Lemma rand_run e m :
  rand e m = (rand_seq e (rng_seed m) (rng_drawn m), draws 1 m).
Proof. unfold rand, draws. by rewrite Nat.add_1_r. Qed.

Lemma filled_past e m i range data :
  (length data <= i)%nat -> filled e m i range data = data.
Proof.
  intros Hi. apply list_eq. intros j. unfold filled. rewrite list_lookup_imap.
  destruct (data !! j) as [x|] eqn:Hj; [|done].
  apply lookup_lt_Some in Hj. simpl. by rewrite bool_decide_false by lia.
Qed.

Lemma filled_step e m i range data :
  (i < length data)%nat ->
  filled e (draws 1 m) (S i) range
    (<[i := Seq.sample (rand_seq e (rng_seed m) (rng_drawn m)) range]> data) =
  filled e m i range data.
Proof.
  intros Hi. apply list_eq. intros j. unfold filled. rewrite !list_lookup_imap.
  destruct (decide (j = i)) as [->|Hne].
  - rewrite list_lookup_insert_eq by done.
    destruct (lookup_lt_is_Some_2 data i Hi) as [x ->]. simpl.
    rewrite bool_decide_false by lia. rewrite bool_decide_true by lia.
    by rewrite Nat.sub_diag, Nat.add_0_r.
  - rewrite list_lookup_insert_ne by done.
    destruct (data !! j) as [x|]; [|done]. simpl.
    destruct (decide (i <= j)%nat) as [Hle|Hgt].
    + rewrite !bool_decide_true by lia. do 3 f_equal. lia.
    + by rewrite !bool_decide_false by lia.
Qed.

Lemma fill_loop_run e range : forall fuel i data m,
  (length data <= i + fuel)%nat ->
  Seq.fill_loop fuel i range data e m =
  (filled e m i range data, draws (length data - i) m).
Proof.
  induction fuel as [|fuel IH]; intros i data m Hfuel; cbn [Seq.fill_loop].
  - unfold ret. rewrite filled_past by lia.
    replace (length data - i)%nat with 0%nat by lia. by rewrite draws_0.
  - case_bool_decide as Hi.
    + unfold bind. rewrite rand_run.
      rewrite IH by (rewrite length_insert; lia).
      rewrite filled_step by done. rewrite length_insert. f_equal.
      unfold draws. simpl. f_equal. lia.
    + unfold ret. rewrite filled_past by lia.
      replace (length data - i)%nat with 0%nat by lia. by rewrite draws_0.
Qed.

(** Fuel beyond the trip count of the fill loop is not used. *)
Lemma fill_loop_fuel e range fuel fuel' i data m :
  (length data <= i + fuel)%nat -> (length data <= i + fuel')%nat ->
  Seq.fill_loop fuel i range data e m = Seq.fill_loop fuel' i range data e m.
Proof. intros H1 H2. by rewrite !fill_loop_run. Qed.

Lemma MultiThread_fill_loop_eq : MultiThread.fill_loop = Seq.fill_loop.
Proof. reflexivity. Qed.

Lemma filled_length e m i range data : length (filled e m i range data) = length data.
Proof. unfold filled. apply length_imap. Qed.

Lemma Seq_generateAudioData_run e m :
  let m1 := snd (log "Wake: Generating dummy audio data..." e m) in
  let range := wrap32 (Z.shiftl 1 (bit_depth (this m) - 1)) in
  Seq.generateAudioData e m =
  (filled e m1 0 range (replicate (buffer_size (this m)) 0),
   draws (buffer_size (this m)) m1).
Proof.
  unfold Seq.generateAudioData, bind, get_this. rewrite log_run. cbn [snd this].
  fold (buffer_size (this m)).
  rewrite fill_loop_run by lia.
  by rewrite length_replicate, Nat.sub_0_r.
Qed.

Lemma fill_iterations_length e range : forall order data m,
  length (fst (OpenMP.fill_iterations order range data e m)) = length data.
Proof.
  induction order as [|i order IH]; intros data m; cbn [OpenMP.fill_iterations].
  - done.
  - unfold bind. rewrite rand_run. by rewrite IH, length_insert.
Qed.

Lemma sample_bounds r bits :
  0 <= r -> 1 <= bits <= 30 ->
  wrap32 (Z.shiftl 1 (bits - 1)) = 2 ^ (bits - 1) /\
  - 2 ^ (bits - 1) <= Seq.sample r (wrap32 (Z.shiftl 1 (bits - 1))) < 2 ^ (bits - 1).
Proof.
  intros Hr Hbits.
  assert (Hpow : 1 <= 2 ^ (bits - 1) <= 2 ^ 29).
  { split.
    - apply (Z.pow_le_mono_r 2 0 (bits - 1)); lia.
    - apply Z.pow_le_mono_r; lia. }
  rewrite Z.shiftl_1_l.
  assert (Hrange : wrap32 (2 ^ (bits - 1)) = 2 ^ (bits - 1)) by (apply wrap32_small; lia).
  rewrite Hrange. split; [done|].
  unfold Seq.sample. rewrite (wrap32_small (2 * 2 ^ (bits - 1))) by lia.
  pose proof (Z.rem_bound_pos r (2 * 2 ^ (bits - 1))) as Hrem.
  rewrite wrap32_small; lia.
Qed.

(** ** C2 and C8: what [generateAudioData] returns *)

(** C2. With the default bit depth of 24 the range is [2^(24 - 1) = 2^23],
    and for every generator that returns non-negative values every position
    of the vector [generateAudioData] returns holds a value of the half-open
    interval from [-range] (included) to [range] (excluded). *)
Theorem C2_generateAudioData_range (e : Env) (m : Machine) :
  rand_nonneg e ->
  bit_depth (this m) = 24 ->
  let range := wrap32 (Z.shiftl 1 (bit_depth (this m) - 1)) in
  range = 2 ^ (bit_depth (this m) - 1) /\ range = 2 ^ 23 /\
  forall i v, fst (Seq.generateAudioData e m) !! i = Some v -> - range <= v < range.
Proof.
  intros Hnonneg Hbits range. subst range.
  assert (Hb : 1 <= bit_depth (this m) <= 30) by lia.
  split; [|split].
  - apply (sample_bounds 0 (bit_depth (this m))); [lia|done].
  - by rewrite Hbits.
  - intros i v Hv. rewrite Seq_generateAudioData_run in Hv. cbn [fst] in Hv.
    unfold filled in Hv. rewrite list_lookup_imap in Hv.
    destruct (replicate _ _ !! i) as [x|]; [|done]. simpl in Hv.
    try rewrite bool_decide_true in Hv by lia. injection Hv as <-.
    destruct (sample_bounds
                (rand_seq e (rng_seed m) (rng_drawn m + (i - 0)))
                (bit_depth (this m)) (Hnonneg _ _) Hb) as [Hrange Hs].
    rewrite Hrange in Hs |- *. exact Hs.
Qed.

Lemma C2_generateAudioData_range_witness :
  let e := mkEnv (fun seed k => Z.of_nat k) (fun _ => 0) in
  let m := mkMachine (default_node "sensor_001") 1 0 0 [] in
  rand_nonneg e /\ bit_depth (this m) = 24 /\
  forall i v, fst (Seq.generateAudioData e m) !! i = Some v -> - 2 ^ 23 <= v < 2 ^ 23.
Proof.
  intros e m.
  assert (Hnonneg : rand_nonneg e) by (intros seed k; simpl; lia).
  split; [exact Hnonneg|]. split; [reflexivity|].
  exact (proj2 (proj2 (C2_generateAudioData_range e m Hnonneg eq_refl))).
Defined.

(** C8. Whatever the generator returns, [generateAudioData] returns a vector
    of exactly [sample_rate * duration] elements, in the sequential file and,
    for every order of the iterations, in the OpenMP file. *)
Theorem C8_generateAudioData_length (e : Env) (m : Machine) :
  0 <= sample_rate (this m) * duration (this m) < 2 ^ 31 ->
  Z.of_nat (length (fst (Seq.generateAudioData e m)))
    = sample_rate (this m) * duration (this m) /\
  forall order,
    Z.of_nat (length (fst (OpenMP.generateAudioData order e m)))
    = sample_rate (this m) * duration (this m).
Proof.
  intros Hsize.
  assert (Hbuf : Z.of_nat (buffer_size (this m)) = sample_rate (this m) * duration (this m)).
  { unfold buffer_size. rewrite wrap32_small by lia. lia. }
  split.
  - rewrite Seq_generateAudioData_run. cbn [fst].
    by rewrite filled_length, length_replicate.
  - intros order. unfold OpenMP.generateAudioData, bind, get_this.
    rewrite log_run. cbn [this]. fold (buffer_size (this m)).
    by rewrite fill_iterations_length, length_replicate.
Qed.

Lemma C8_generateAudioData_length_witness :
  let e := mkEnv (fun seed k => Z.of_nat k) (fun _ => 0) in
  let m := mkMachine (default_node "sensor_001") 1 0 0 [] in
  0 <= sample_rate (this m) * duration (this m) < 2 ^ 31 /\
  Z.of_nat (length (fst (Seq.generateAudioData e m))) = 400000 /\
  forall order, Z.of_nat (length (fst (OpenMP.generateAudioData order e m))) = 400000.
Proof.
  intros e m.
  assert (Hsize : 0 <= sample_rate (this m) * duration (this m) < 2 ^ 31)
    by (simpl; lia).
  split; [exact Hsize|].
  exact (C8_generateAudioData_length e m Hsize).
Defined.

(** ** Facts about the payload *)

Lemma string_app_assoc (a b c : string) : (a +:+ b) +:+ c = a +:+ b +:+ c.
Proof.
  induction a as [|ch a IH]; [done|].
  change (String ch ((a +:+ b) +:+ c) = String ch (a +:+ b +:+ c)). by f_equal.
Qed.

Lemma string_app_nil_r (a : string) : a +:+ EmptyString = a.
Proof.
  induction a as [|ch a IH]; [done|].
  change (String ch (a +:+ EmptyString) = String ch a). by f_equal.
Qed.

Lemma comma_separated_cons x rest : comma_separated (x :: rest) = x +:+ sep_tail rest.
Proof.
  revert x. induction rest as [|y rest IH]; intros x.
  - simpl. by rewrite string_app_nil_r.
  - change (comma_separated (x :: y :: rest))
      with (x +:+ ", " +:+ comma_separated (y :: rest)).
    by rewrite IH.
Qed.

Lemma comma_separated_cons_cons x y rest :
  comma_separated (x :: y :: rest) = x +:+ ", " +:+ comma_separated (y :: rest).
Proof. reflexivity. Qed.

(** The element the loop reads at index [i] heads what is left to embed. *)
Lemma drop_take_head (data : list Z) (i k : nat) :
  (i < Nat.min k (length data))%nat ->
  drop i (take k data) = data !!! i :: drop (S i) (take k data).
Proof.
  intros Hi. apply drop_S. rewrite lookup_take_lt by lia.
  apply list_lookup_lookup_total_lt. lia.
Qed.

Lemma Seq_payload_loop_spec data : forall fuel i payload,
  (1 <= i)%nat -> (Nat.min 100 (length data) <= i + fuel)%nat ->
  Seq.payload_loop fuel i data payload =
  payload +:+ sep_tail (pretty <$> drop i (take 100 data)).
Proof.
  induction fuel as [|fuel IH]; intros i acc Hi Hfuel; cbn [Seq.payload_loop].
  - rewrite drop_ge by (rewrite length_take; lia).
    simpl. by rewrite string_app_nil_r.
  - case_bool_decide as Hguard.
    + rewrite bool_decide_true by lia. cbn zeta.
      rewrite IH by lia.
      rewrite (drop_take_head data i 100) by lia.
      cbn [fmap list_fmap sep_tail foldr].
      by rewrite !string_app_assoc.
    + rewrite drop_ge by (rewrite length_take; lia).
      simpl. by rewrite string_app_nil_r.
Qed.

Lemma embedded_take data : embedded data = comma_separated (pretty <$> take 100 data).
Proof.
  unfold embedded. f_equal. f_equal.
  destruct (decide (100 <= length data)%nat).
  - by rewrite Nat.min_l by lia.
  - rewrite Nat.min_r by lia. by rewrite !take_ge by lia.
Qed.

Lemma Seq_payload_loop_all data fuel payload :
  (Nat.min 100 (length data) <= fuel)%nat ->
  Seq.payload_loop fuel 0 data payload = payload +:+ embedded data.
Proof.
  intros Hfuel. rewrite embedded_take.
  destruct fuel as [|fuel]; cbn [Seq.payload_loop].
  - destruct data as [|x data]; [|simpl in Hfuel; lia].
    simpl. by rewrite string_app_nil_r.
  - case_bool_decide as Hguard.
    + rewrite bool_decide_false by lia. cbn zeta.
      rewrite Seq_payload_loop_spec by lia.
      rewrite <- (drop_0 (take 100 data)) at 2.
      rewrite (drop_take_head data 0 100) by lia.
      cbn [fmap list_fmap]. rewrite comma_separated_cons.
      by rewrite string_app_assoc.
    + destruct data as [|x data]; [|simpl in Hguard; lia].
      simpl. by rewrite string_app_nil_r.
Qed.

Lemma OpenMP_payload_loop_spec data : forall fuel i payload,
  Z.of_nat (length data) < 2 ^ 64 ->
  (Nat.min 100 (length data) <= i + fuel)%nat ->
  OpenMP.payload_loop fuel i data payload =
  payload +:+ comma_separated (pretty <$> drop i (take 100 data)).
Proof.
  induction fuel as [|fuel IH]; intros i acc Hsize Hfuel; cbn [OpenMP.payload_loop].
  - rewrite drop_ge by (rewrite length_take; lia).
    simpl. by rewrite string_app_nil_r.
  - case_bool_decide as Hguard.
    + cbn zeta. rewrite IH by (done || lia).
      rewrite (drop_take_head data i 100) by lia.
      rewrite (Z.mod_small (Z.of_nat (length data) - 1)) by lia.
      destruct (decide (S i < Nat.min 100 (length data))%nat) as [Hmore|Hlast].
      * rewrite !bool_decide_true by lia. cbn [andb].
        rewrite (drop_take_head data (S i) 100) by lia.
        cbn [fmap list_fmap]. rewrite comma_separated_cons_cons.
        by rewrite !string_app_assoc.
      * assert (Hand : bool_decide (i < 99)%nat &&
                       bool_decide (Z.of_nat i < Z.of_nat (length data) - 1) = false).
        { apply andb_false_iff.
          destruct (decide (i < 99)%nat).
          - right. apply bool_decide_eq_false. lia.
          - left. by apply bool_decide_eq_false. }
        rewrite Hand.
        rewrite (drop_ge _ (S i)) by (rewrite length_take; lia).
        cbn [fmap list_fmap comma_separated].
        by rewrite string_app_nil_r.
    + rewrite drop_ge by (rewrite length_take; lia).
      simpl. by rewrite string_app_nil_r.
Qed.

(** [substring 0 n] is [substr(0, n)]: the longest prefix of at most [n]
    characters. *)
Lemma substring_0_prefix (n : nat) : forall s : string,
  (String.length (substring 0 n s) <= n)%nat /\
  exists rest, s = substring 0 n s +:+ rest.
Proof.
  induction n as [|n IH]; intros s.
  - destruct s; (split; [cbn; lia|by eexists]).
  - destruct s as [|ch s].
    + split; [cbn; lia|by exists EmptyString].
    + destruct (IH s) as [Hlen [rest Hrest]].
      change (substring 0 (S n) (String ch s)) with (String ch (substring 0 n s)).
      split; [cbn [String.length]; lia|].
      exists rest.
      change (String ch s = String ch (substring 0 n s +:+ rest)).
      by f_equal.
Qed.

Lemma Seq_build_payload_spec sensor_id t data :
  Seq.build_payload sensor_id t data =
  Seq.payload_header sensor_id t +:+ embedded data +:+ "] }".
Proof.
  unfold Seq.build_payload. rewrite Seq_payload_loop_all by lia.
  by rewrite string_app_assoc.
Qed.

Lemma OpenMP_build_payload_spec sensor_id t data :
  Z.of_nat (length data) < 2 ^ 64 ->
  OpenMP.build_payload sensor_id t data =
  OpenMP.payload_header sensor_id t +:+ embedded data +:+ "]" +:+ newline +:+ "}".
Proof.
  intros Hsize. unfold OpenMP.build_payload.
  rewrite OpenMP_payload_loop_spec by (done || lia).
  by rewrite drop_0, embedded_take, string_app_assoc.
Qed.

(** ** Facts about [sendToCloud] *)

Lemma Seq_sendToCloud_run data e m :
  Seq.sendToCloud data e m =
  let ok := bool_decide (Z.rem (rand_seq e (rng_seed m) (rng_drawn m)) 10 < 9) in
  let payload := Seq.build_payload (id (this m)) (wall_clock e (S (ticks m))) data in
  (ok,
   mkMachine (this m) (rng_seed m) (S (rng_drawn m)) (S (S (S (ticks m))))
     (console m ++
      Log (wall_clock e (ticks m)) "Transmit: Preparing payload..." ::
      Log (wall_clock e (S (S (ticks m))))
          (if ok then "Transmit: Sending data to cloud..."
           else "Transmit: Failed to send data.") ::
      if ok then [Stdout (substring 0 120 payload +:+ " ...")] else [])).
Proof.
  unfold Seq.sendToCloud, bind, ret, get_this, log, bind, time_now, rand, emit.
  cbn [fst snd this rng_seed rng_drawn ticks console].
  destruct (bool_decide _); cbn [fst snd this rng_seed rng_drawn ticks console];
    by rewrite <- !app_assoc.
Qed.

Lemma OpenMP_sendToCloud_run data e m :
  OpenMP.sendToCloud data e m =
  let ok := bool_decide (Z.rem (rand_seq e (rng_seed m) (rng_drawn m)) 10 < 9) in
  let payload := OpenMP.build_payload (id (this m)) (wall_clock e (S (ticks m))) data in
  (ok,
   mkMachine (this m) (rng_seed m) (S (rng_drawn m)) (S (S (S (ticks m))))
     (console m ++
      Log (wall_clock e (ticks m)) "Transmit: Preparing payload..." ::
      Log (wall_clock e (S (S (ticks m))))
          (if ok then "Transmit: Sending data to cloud..."
           else "Transmit: Failed to send data.") ::
      if ok then [Stdout (substring 0 120 payload +:+ " ...")] else [])).
Proof.
  unfold OpenMP.sendToCloud, bind, ret, get_this, log, bind, time_now, rand, emit.
  cbn [fst snd this rng_seed rng_drawn ticks console].
  destruct (bool_decide _); cbn [fst snd this rng_seed rng_drawn ticks console];
    by rewrite <- !app_assoc.
Qed.

(** ** C9 and C10: the payload and the outcome of [sendToCloud] *)

(** C9. The payload [sendToCloud] builds is its header, the first
    [min(100, length)] elements of the input in input order, and its footer,
    in the sequential and in the OpenMP file; it is the payload of the first
    100 elements alone, so no later element is in it.  What the call writes
    is two log lines and, on success only, one raw line: the first 120
    characters of the payload (all of it when it is shorter) followed by an
    ellipsis. *)
Theorem C9_payload_first_100 (data : list Z) (sensor_id : string) (t : Z)
    (e : Env) (m : Machine) :
  Z.of_nat (length data) < 2 ^ 64 ->
  Seq.build_payload sensor_id t data
    = Seq.payload_header sensor_id t +:+ embedded data +:+ "] }" /\
  OpenMP.build_payload sensor_id t data
    = OpenMP.payload_header sensor_id t +:+ embedded data +:+ "]" +:+ newline +:+ "}" /\
  Seq.build_payload sensor_id t data = Seq.build_payload sensor_id t (take 100 data) /\
  OpenMP.build_payload sensor_id t data = OpenMP.build_payload sensor_id t (take 100 data) /\
  console (snd (Seq.sendToCloud data e m)) =
    console m ++
    Log (wall_clock e (ticks m)) "Transmit: Preparing payload..." ::
    (if fst (Seq.sendToCloud data e m)
     then [Log (wall_clock e (S (S (ticks m)))) "Transmit: Sending data to cloud...";
           Stdout (substring 0 120
                     (Seq.build_payload (id (this m)) (wall_clock e (S (ticks m))) data)
                   +:+ " ...")]
     else [Log (wall_clock e (S (S (ticks m)))) "Transmit: Failed to send data."]) /\
  console (snd (OpenMP.sendToCloud data e m)) =
    console m ++
    Log (wall_clock e (ticks m)) "Transmit: Preparing payload..." ::
    (if fst (OpenMP.sendToCloud data e m)
     then [Log (wall_clock e (S (S (ticks m)))) "Transmit: Sending data to cloud...";
           Stdout (substring 0 120
                     (OpenMP.build_payload (id (this m)) (wall_clock e (S (ticks m))) data)
                   +:+ " ...")]
     else [Log (wall_clock e (S (S (ticks m)))) "Transmit: Failed to send data."]) /\
  (forall payload : string,
     (String.length (substring 0 120 payload) <= 120)%nat /\
     exists rest, payload = substring 0 120 payload +:+ rest).
Proof.
  intros Hsize.
  assert (Hemb : embedded (take 100 data) = embedded data).
  { rewrite !embedded_take. by rewrite take_take. }
  assert (Hsize' : Z.of_nat (length (take 100 data)) < 2 ^ 64).
  { rewrite length_take. lia. }
  split; [apply Seq_build_payload_spec|].
  split; [by apply OpenMP_build_payload_spec|].
  split; [by rewrite !Seq_build_payload_spec, Hemb|].
  split; [by rewrite !OpenMP_build_payload_spec, Hemb|].
  split; [|split].
  - rewrite Seq_sendToCloud_run. cbn [fst snd console]. by destruct (bool_decide _).
  - rewrite OpenMP_sendToCloud_run. cbn [fst snd console]. by destruct (bool_decide _).
  - intros payload. apply substring_0_prefix.
Qed.

Lemma C9_payload_first_100_witness :
  Seq.build_payload "sensor_001" 7 [5; -3]
    = Seq.payload_header "sensor_001" 7 +:+ embedded [5; -3] +:+ "] }".
Proof.
  refine (proj1 (C9_payload_first_100 [5; -3] "sensor_001" 7
                   (mkEnv (fun _ _ => 0) (fun _ => 0))
                   (mkMachine (default_node "sensor_001") 1 0 0 []) _)).
  simpl. lia.
Defined.

(** C10. The value [sendToCloud] returns is decided by the state of the
    random-number generator alone: two calls that start with the same seed
    and the same number of draws return the same boolean, whatever the two
    input lists, the two sensor nodes and the rest of the two machines. *)
Theorem C10_outcome_depends_on_rng_only (e : Env) (data1 data2 : list Z)
    (m1 m2 : Machine) :
  rng_seed m1 = rng_seed m2 ->
  rng_drawn m1 = rng_drawn m2 ->
  fst (Seq.sendToCloud data1 e m1) = fst (Seq.sendToCloud data2 e m2).
Proof.
  intros Hseed Hdrawn. rewrite !Seq_sendToCloud_run. cbn [fst].
  by rewrite Hseed, Hdrawn.
Qed.

Lemma C10_outcome_depends_on_rng_only_witness :
  fst (Seq.sendToCloud [1; 2; 3] (mkEnv (fun seed k => seed + Z.of_nat k) (fun _ => 0))
         (mkMachine (default_node "sensor_001") 9 4 0 []))
  = fst (Seq.sendToCloud [] (mkEnv (fun seed k => seed + Z.of_nat k) (fun _ => 0))
         (mkMachine (default_node "another") 9 4 12 [Sleep 2])).
Proof.
  apply C10_outcome_depends_on_rng_only; reflexivity.
Defined.

(** ** Frame lemmas: the object and the console *)

Create HintDb frame.

Lemma keeps_this_ret {A} (a : A) : keeps_this (ret a).
Proof. by intros e m. Qed.

Lemma keeps_this_bind {A B} (c : M A) (k : A -> M B) :
  keeps_this c -> (forall a, keeps_this (k a)) -> keeps_this (bind c k).
Proof.
  intros Hc Hk e m. unfold bind. specialize (Hc e m).
  destruct (c e m) as [a m']. rewrite Hk. exact Hc.
Qed.

Lemma keeps_this_if {A} (b : bool) (c1 c2 : M A) :
  keeps_this c1 -> keeps_this c2 -> keeps_this (if b then c1 else c2).
Proof. by destruct b. Qed.

Lemma keeps_this_get_this : keeps_this get_this.
Proof. by intros e m. Qed.

Lemma keeps_this_rand : keeps_this rand.
Proof. by intros e m. Qed.

Lemma keeps_this_time_now : keeps_this time_now.
Proof. by intros e m. Qed.

Lemma keeps_this_emit ev : keeps_this (emit ev).
Proof. by intros e m. Qed.

#[local] Hint Resolve keeps_this_ret keeps_this_bind keeps_this_if keeps_this_get_this
  keeps_this_rand keeps_this_time_now keeps_this_emit : frame.

Lemma keeps_this_log msg : keeps_this (log msg).
Proof. unfold log. auto with frame. Qed.

#[local] Hint Resolve keeps_this_log : frame.

Lemma keeps_this_fill_loop range : forall fuel i data,
  keeps_this (Seq.fill_loop fuel i range data).
Proof.
  induction fuel as [|fuel IH]; intros i data; cbn [Seq.fill_loop]; auto with frame.
Qed.

#[local] Hint Resolve keeps_this_fill_loop : frame.

Lemma keeps_this_generateAudioData : keeps_this Seq.generateAudioData.
Proof. unfold Seq.generateAudioData. auto with frame. Qed.

Lemma keeps_this_compressData data : keeps_this (Seq.compressData data).
Proof. unfold Seq.compressData. auto with frame. Qed.

Lemma keeps_this_sendToCloud data : keeps_this (Seq.sendToCloud data).
Proof. unfold Seq.sendToCloud. auto 10 with frame. Qed.

#[local] Hint Resolve keeps_this_generateAudioData keeps_this_compressData
  keeps_this_sendToCloud : frame.

Lemma keeps_this_runCycle : keeps_this Seq.runCycle.
Proof. unfold Seq.runCycle. auto 10 with frame. Qed.

#[local] Hint Resolve keeps_this_runCycle : frame.

Lemma keeps_this_cycles : forall fuel i, keeps_this (Seq.cycles fuel i).
Proof.
  induction fuel as [|fuel IH]; intros i; cbn [Seq.cycles]; auto with frame.
Qed.

(** The loop of [main] leaves through its guard after three cycles. *)
Lemma cycles_fuel e m fuel :
  (3 <= fuel)%nat -> Seq.cycles fuel 0 e m = Seq.cycles 3 0 e m.
Proof.
  intros Hfuel.
  destruct fuel as [|[|[|[|fuel]]]]; try lia; [done|].
  cbn [Seq.cycles]. unfold bind.
  change (wrap32 (0 + 1)) with 1. change (wrap32 (1 + 1)) with 2.
  change (wrap32 (2 + 1)) with 3.
  rewrite !bool_decide_true by lia. rewrite bool_decide_false by lia.
  destruct (Seq.runCycle e m) as [[] m1].
  destruct (Seq.runCycle e m1) as [[] m2].
  by destruct (Seq.runCycle e m2) as [[] m3].
Qed.

Lemma appends_ret {A} (a : A) : appends_only (ret a).
Proof. by intros e m h. Qed.

Lemma appends_bind {A B} (c : M A) (k : A -> M B) :
  appends_only c -> (forall a, appends_only (k a)) -> appends_only (bind c k).
Proof.
  intros Hc Hk e m h. unfold bind. rewrite Hc.
  destruct (c e m) as [a m']. cbn [fst snd].
  rewrite (Hk a e m' h). by destruct (k a e m').
Qed.

Lemma appends_if {A} (b : bool) (c1 c2 : M A) :
  appends_only c1 -> appends_only c2 -> appends_only (if b then c1 else c2).
Proof. by destruct b. Qed.

Lemma appends_get_this : appends_only get_this.
Proof. by intros e m h. Qed.

Lemma appends_rand : appends_only rand.
Proof. by intros e m h. Qed.

Lemma appends_time_now : appends_only time_now.
Proof. by intros e m h. Qed.

Lemma appends_emit ev : appends_only (emit ev).
Proof.
  intros e m h. unfold emit, with_console. cbn [fst snd this rng_seed rng_drawn ticks console].
  by rewrite app_assoc.
Qed.

#[local] Hint Resolve appends_ret appends_bind appends_if appends_get_this
  appends_rand appends_time_now appends_emit : frame.

Lemma appends_log msg : appends_only (log msg).
Proof. unfold log. auto with frame. Qed.

#[local] Hint Resolve appends_log : frame.

Lemma appends_fill_loop range : forall fuel i data,
  appends_only (Seq.fill_loop fuel i range data).
Proof.
  induction fuel as [|fuel IH]; intros i data; cbn [Seq.fill_loop]; auto with frame.
Qed.

#[local] Hint Resolve appends_fill_loop : frame.

Lemma appends_runCycle : appends_only Seq.runCycle.
Proof.
  unfold Seq.runCycle, Seq.generateAudioData, Seq.compressData, Seq.sendToCloud.
  auto 12 with frame.
Qed.

Lemma Seq_compressData_run data e m :
  Seq.compressData data e m =
  (every_4th data, snd (log "Processing: Compressing audio data..." e m)).
Proof.
  rewrite (surjective_pairing (Seq.compressData data e m)).
  by rewrite Seq_compressData_result.
Qed.

Lemma Seq_runCycle_rng e m :
  rng_seed (snd (Seq.runCycle e m)) = rng_seed m /\
  rng_drawn (snd (Seq.runCycle e m)) = (rng_drawn m + buffer_size (this m) + 1)%nat.
Proof.
  unfold Seq.runCycle, bind. rewrite log_run, Seq_generateAudioData_run.
  cbn zeta. rewrite Seq_compressData_run, Seq_sendToCloud_run.
  cbn zeta. unfold ret, emit, log, bind, time_now, emit.
  destruct (bool_decide _);
    cbn [negb fst snd this rng_seed rng_drawn ticks console draws]; split; (done || lia).
Qed.

(** ** C4 and C6: one cycle of the sequential file *)

(** C4. [sendToCloud] returns true exactly when the value [rand()] gives it,
    taken modulo 10, is below 9.  Whatever it returns, [runCycle] returns
    normally and goes on from the machine [sendToCloud] left with the same
    steps, the sleep message and the sleep, making no further draw; when the
    result is false, one more log line comes before them, and nothing else
    differs. *)
Theorem C4_failure_is_only_logged (e : Env) (m : Machine) :
  (forall data,
     fst (Seq.sendToCloud data e m)
     = bool_decide (Z.rem (rand_seq e (rng_seed m) (rng_drawn m)) 10 < 9)) /\
  (let m0 := snd (log "---- Sensor Cycle Start ----" e m) in
   let '(audio, m1) := Seq.generateAudioData e m0 in
   let '(compressed, m2) := Seq.compressData audio e m1 in
   let '(ok, m3) := Seq.sendToCloud compressed e m2 in
   Seq.runCycle e m =
   (tt,
    mkMachine (this m3) (rng_seed m3) (rng_drawn m3)
      (ticks m3 + if ok then 1 else 2)
      (console m3 ++
       (if ok then []
        else [Log (wall_clock e (ticks m3))
                  "Error: Transmission failed. Logging for retry."]) ++
       [Log (wall_clock e (ticks m3 + if ok then 0 else 1))
            ("Sleep: Entering sleep mode..." +:+ newline);
        Sleep 2]))).
Proof.
  split.
  - intros data. by rewrite Seq_sendToCloud_run.
  - lazy zeta. unfold Seq.runCycle, bind. rewrite !log_run. cbn [snd].
    destruct (Seq.generateAudioData e _) as [audio m1].
    destruct (Seq.compressData audio e m1) as [compressed m2].
    destruct (Seq.sendToCloud compressed e m2) as [ok m3].
    unfold emit, ret.
    destruct ok; cbn [negb]; rewrite !log_run;
      cbn [fst snd this rng_seed rng_drawn ticks console];
      rewrite <- ?app_assoc; cbn [app];
      repeat f_equal; lia.
Qed.

(** C6. A call of [runCycle] leaves the fields of the node ([id],
    [sample_rate], [bit_depth], [duration], [sleep_interval]) as they were,
    and so do the three cycles of [main], which end with the fields the
    constructor set.  What a cycle hands to the next is the state of the
    random-number generator, moved on by the draws of the cycle; the console
    is only appended to, so nothing written in one cycle influences the next. *)
Theorem C6_runCycle_keeps_fields (e : Env) (m : Machine) :
  this (snd (Seq.runCycle e m)) = this m /\
  (forall fuel i, this (snd (Seq.cycles fuel i e m)) = this m) /\
  this (snd (Seq.main e m)) = default_node "sensor_001" /\
  rng_seed (snd (Seq.runCycle e m)) = rng_seed m /\
  rng_drawn (snd (Seq.runCycle e m)) = (rng_drawn m + buffer_size (this m) + 1)%nat /\
  (forall h,
     Seq.runCycle e (with_console (h ++ console m) m) =
     (tt, with_console (h ++ console (snd (Seq.runCycle e m))) (snd (Seq.runCycle e m)))).
Proof.
  split; [apply keeps_this_runCycle|].
  split; [intros fuel i; apply keeps_this_cycles|].
  split.
  { unfold Seq.main, bind.
    destruct (new_SensorNode "sensor_001" e m) as [[] m1] eqn:Hnew.
    pose proof (keeps_this_cycles 3 0 e m1) as Hkeep.
    destruct (Seq.cycles 3 0 e m1) as [[] m2]. cbn [snd ret] in *.
    rewrite Hkeep. by injection Hnew as <-. }
  split; [apply Seq_runCycle_rng|].
  split; [apply Seq_runCycle_rng|].
  intros h. rewrite appends_runCycle.
  by destruct (Seq.runCycle e m) as [[] m'].
Qed.

(** ** The two threads of the threaded file *)

Import MultiThread.

Lemma MultiThread_sample_eq : MultiThread.sample = Seq.sample.
Proof. reflexivity. Qed.

Lemma draws_draws j k m : draws j (draws k m) = draws (k + j) m.
Proof. unfold draws. cbn [this rng_seed rng_drawn ticks console]. f_equal. lia. Qed.

(** *** A thread that has returned takes no step *)

Lemma join_T1_Done e : forall fuel p m,
  gen_pc p = Done -> join fuel T1 p e m = (p, m).
Proof.
  induction fuel as [|fuel IH]; intros p m Hpc; cbn [join]; [done|].
  unfold bind. cbn [step]. unfold step_generate. rewrite Hpc. unfold ret.
  by apply IH.
Qed.

Lemma join_T2_Done e : forall fuel p m,
  comp_pc p = Done -> join fuel T2 p e m = (p, m).
Proof.
  induction fuel as [|fuel IH]; intros p m Hpc; cbn [join]; [done|].
  unfold bind. cbn [step]. unfold step_compress. rewrite Hpc. unfold ret.
  by apply IH.
Qed.

(** *** A thread that runs alone does what its method does *)

Lemma join_T1_Loop e : forall fuel p m i,
  gen_pc p = Loop i ->
  (length (audio p) - i + 1 <= fuel)%nat ->
  join fuel T1 p e m =
  (mkPar Done (gen_range p) (comp_pc p)
         (filled e m i (gen_range p) (audio p)) (compressed p),
   draws (length (audio p) - i) m).
Proof.
  induction fuel as [|fuel IH]; intros p m i Hpc Hfuel; [lia|].
  cbn [join]. unfold bind at 1. cbn [step]. unfold step_generate. rewrite Hpc.
  case_bool_decide as Hi.
  - unfold bind, ret. rewrite rand_run, MultiThread_sample_eq.
    rewrite (IH _ _ (S i)); cbn [gen_pc gen_range comp_pc audio compressed];
      [|done|rewrite length_insert; lia].
    rewrite filled_step by done. rewrite length_insert, draws_draws.
    do 2 f_equal. lia.
  - unfold ret. rewrite join_T1_Done by done.
    rewrite filled_past by lia.
    replace (length (audio p) - i)%nat with 0%nat by lia. by rewrite draws_0.
Qed.

Lemma join_T1_Entry e fuel p m :
  gen_pc p = Entry ->
  (length (audio p) + 2 <= fuel)%nat ->
  let m1 := snd (log "Wake: Generating dummy audio data..." e m) in
  let range := wrap32 (Z.shiftl 1 (bit_depth (this m) - 1)) in
  join fuel T1 p e m =
  (mkPar Done range (comp_pc p) (filled e m1 0 range (audio p)) (compressed p),
   draws (length (audio p)) m1).
Proof.
  intros Hpc Hfuel. destruct fuel as [|fuel]; [lia|].
  cbn [join]. unfold bind at 1. cbn [step]. unfold step_generate. rewrite Hpc.
  unfold bind, get_this, ret. rewrite log_run. cbn [snd this].
  rewrite (join_T1_Loop e fuel _ _ 0);
    cbn [gen_pc gen_range comp_pc audio compressed]; [|done|lia].
  by rewrite Nat.sub_0_r.
Qed.

Lemma join_T2_Loop e : forall fuel p m i,
  comp_pc p = Loop i ->
  (length (audio p) - i + 1 <= fuel)%nat ->
  join fuel T2 p e m =
  (mkPar (gen_pc p) (gen_range p) Done (audio p)
         (Seq.compress_loop (length (audio p)) i (audio p) (compressed p)),
   m).
Proof.
  induction fuel as [|fuel IH]; intros p m i Hpc Hfuel; [lia|].
  cbn [join]. unfold bind at 1. cbn [step]. unfold step_compress. rewrite Hpc.
  case_bool_decide as Hi.
  - unfold ret.
    rewrite (IH _ _ (i + 4)%nat); cbn [gen_pc gen_range comp_pc audio compressed];
      [|done|lia].
    do 2 f_equal.
    rewrite (compress_loop_fuel (audio p) (length (audio p)) (S (length (audio p)))
               i (compressed p)) by lia.
    cbn [Seq.compress_loop]. rewrite bool_decide_true by lia.
    apply compress_loop_fuel; lia.
  - unfold ret. rewrite join_T2_Done by done. do 2 f_equal.
    rewrite (compress_loop_fuel (audio p) (length (audio p)) (S (length (audio p)))
               i (compressed p)) by lia.
    cbn [Seq.compress_loop]. by rewrite bool_decide_false by lia.
Qed.

Lemma join_T2_Entry e fuel p m :
  comp_pc p = Entry ->
  (length (audio p) + 2 <= fuel)%nat ->
  join fuel T2 p e m =
  (mkPar (gen_pc p) (gen_range p) Done (audio p)
         (Seq.compress_loop (length (audio p)) 0 (audio p) (compressed p)),
   snd (log "Processing: Compressing audio data..." e m)).
Proof.
  intros Hpc Hfuel. destruct fuel as [|fuel]; [lia|].
  cbn [join]. unfold bind at 1. cbn [step]. unfold step_compress. rewrite Hpc.
  unfold bind, ret. rewrite log_run. cbn [snd].
  rewrite (join_T2_Loop e fuel _ _ 0);
    cbn [gen_pc gen_range comp_pc audio compressed]; [done|done|lia].
Qed.

(** *** What a step leaves alone *)

Lemma step_length_audio t p e m :
  length (audio (fst (step t p e m))) = length (audio p).
Proof.
  destruct t; cbn [step].
  - unfold step_generate. destruct (gen_pc p); [done| |done].
    case_bool_decide; [|done].
    unfold bind, ret. rewrite rand_run. cbn [fst audio]. apply length_insert.
  - unfold step_compress. destruct (comp_pc p); [done| |done].
    by case_bool_decide.
Qed.

Lemma run_schedule_length_audio e : forall sched p m,
  length (audio (fst (run_schedule sched p e m))) = length (audio p).
Proof.
  induction sched as [|t sched IH]; intros p m; cbn [run_schedule]; [done|].
  unfold bind. pose proof (step_length_audio t p e m) as Hstep.
  destruct (step t p e m) as [p' m']. rewrite IH. exact Hstep.
Qed.

Lemma step_generate_frame p e m :
  compressed (fst (step T1 p e m)) = compressed p /\
  comp_pc (fst (step T1 p e m)) = comp_pc p.
Proof.
  cbn [step]. unfold step_generate. destruct (gen_pc p); [done| |by destruct p].
  case_bool_decide; [|done]. unfold bind, ret. by rewrite rand_run.
Qed.

Lemma step_compress_frame p e m :
  audio (fst (step T2 p e m)) = audio p /\
  gen_pc (fst (step T2 p e m)) = gen_pc p /\
  gen_range (fst (step T2 p e m)) = gen_range p /\
  rng_seed (snd (step T2 p e m)) = rng_seed m /\
  rng_drawn (snd (step T2 p e m)) = rng_drawn m.
Proof.
  cbn [step]. unfold step_compress. destruct (comp_pc p); [done| |by destruct p].
  by case_bool_decide.
Qed.

Lemma keeps_this_step t p : keeps_this (step t p).
Proof.
  destruct t; cbn [step].
  - unfold step_generate. destruct (gen_pc p); auto 10 with frame.
  - unfold step_compress. destruct (comp_pc p); auto 10 with frame.
Qed.

#[local] Hint Resolve keeps_this_step : frame.

Lemma keeps_this_run_schedule : forall sched p, keeps_this (run_schedule sched p).
Proof.
  induction sched as [|t sched IH]; intros p; cbn [run_schedule]; auto with frame.
Qed.

Lemma keeps_this_join t : forall fuel p, keeps_this (join fuel t p).
Proof.
  induction fuel as [|fuel IH]; intros p; cbn [join]; auto with frame.
Qed.

#[local] Hint Resolve keeps_this_run_schedule keeps_this_join : frame.

Lemma keeps_this_fork_join sched audio compressed :
  keeps_this (fork_join sched audio compressed).
Proof. unfold fork_join. auto with frame. Qed.

(** *** Both threads have returned after the two joins *)

Lemma join_T1_returns e fuel p m :
  (length (audio p) + 2 <= fuel)%nat ->
  let r := fst (join fuel T1 p e m) in
  gen_pc r = Done /\ length (audio r) = length (audio p).
Proof.
  intros Hfuel. destruct (gen_pc p) as [|i|] eqn:Hpc; cbn zeta.
  - rewrite join_T1_Entry by done. cbn [fst gen_pc audio].
    by rewrite filled_length.
  - rewrite (join_T1_Loop e fuel p m i) by (done || lia). cbn [fst gen_pc audio].
    by rewrite filled_length.
  - by rewrite join_T1_Done.
Qed.

Lemma join_T2_returns e fuel p m :
  (length (audio p) + 2 <= fuel)%nat ->
  let r := fst (join fuel T2 p e m) in
  comp_pc r = Done /\ gen_pc r = gen_pc p.
Proof.
  intros Hfuel. destruct (comp_pc p) as [|i|] eqn:Hpc; cbn zeta.
  - by rewrite join_T2_Entry.
  - by rewrite (join_T2_Loop e fuel p m i) by (done || lia).
  - by rewrite join_T2_Done.
Qed.

Lemma fork_join_returns sched audio0 compressed0 e m :
  let p := fst (fork_join sched audio0 compressed0 e m) in
  gen_pc p = Done /\ comp_pc p = Done.
Proof.
  cbn zeta. unfold fork_join, bind.
  pose proof (run_schedule_length_audio e sched
                (mkPar Entry 0 Entry audio0 compressed0) m) as Hlen.
  destruct (run_schedule sched _ e m) as [p1 m1]. cbn [fst audio] in Hlen.
  destruct (join_T1_returns e (length audio0 + 2) p1 m1) as [Hdone1 Hlen1]; [lia|].
  destruct (join (length audio0 + 2) T1 p1 e m1) as [p2 m2]. cbn [fst] in *.
  destruct (join_T2_returns e (length audio0 + 2) p2 m2) as [Hdone2 Hgen]; [lia|].
  split; [by rewrite Hgen|done].
Qed.

(** *** Two schedules of one cycle *)

(** When the scheduler lets the generator return before the compressor
    starts, the threaded cycle is the sequential cycle. *)
Lemma fork_join_in_turn audio0 e m :
  let m1 := snd (log "Wake: Generating dummy audio data..." e m) in
  let range := wrap32 (Z.shiftl 1 (bit_depth (this m) - 1)) in
  let data := filled e m1 0 range audio0 in
  fork_join [] audio0 [] e m =
  (mkPar Done range Done data (every_4th data),
   snd (log "Processing: Compressing audio data..." e (draws (length audio0) m1))).
Proof.
  cbn zeta. unfold fork_join, bind. cbn [run_schedule]. unfold ret.
  rewrite join_T1_Entry by (cbn [gen_pc audio]; done || lia).
  cbn [gen_pc gen_range comp_pc audio compressed].
  rewrite join_T2_Entry by (cbn [comp_pc audio]; rewrite ?filled_length; done || lia).
  cbn [gen_pc gen_range comp_pc audio compressed].
  rewrite compress_loop_spec by lia. unfold every_4th.
  by rewrite Nat.sub_0_r.
Qed.

Lemma MultiThread_runCycle_in_turn e m :
  MultiThread.runCycle [] e m = Seq.runCycle e m.
Proof.
  unfold MultiThread.runCycle, Seq.runCycle, bind, get_this.
  rewrite log_run. cbn [this].
  rewrite fork_join_in_turn, Seq_generateAudioData_run, Seq_compressData_run.
  fold (buffer_size (this m)). cbn [this compressed].
  by rewrite length_replicate.
Qed.

(** When the compressor takes its first two steps before the generator
    starts, the first element it stores is what the vector held before any
    sample was written. *)
Lemma fork_join_compress_first audio0 e m :
  (0 < length audio0)%nat ->
  compressed (fst (fork_join [T2; T2] audio0 [] e m)) !! 0%nat = Some (audio0 !!! 0%nat).
Proof.
  intros Hlen. unfold fork_join, bind at 1. cbn [run_schedule].
  unfold bind at 1. cbn [step]. unfold step_compress at 1. cbn [comp_pc].
  unfold bind at 1. rewrite log_run. unfold ret at 1.
  unfold bind at 1. unfold step_compress at 1. cbn [comp_pc audio].
  rewrite bool_decide_true by done. unfold ret at 1 2.
  cbn [gen_pc gen_range comp_pc audio compressed app].
  unfold bind.
  rewrite join_T1_Entry by (cbn [gen_pc audio]; done || lia).
  cbn [gen_pc gen_range comp_pc audio compressed].
  rewrite (join_T2_Loop e _ _ _ 4)
    by (cbn [comp_pc audio]; rewrite ?filled_length; done || lia).
  cbn [fst compressed audio].
  rewrite compress_loop_spec by (rewrite ?filled_length; lia).
  reflexivity.
Qed.

(** *** An order of the OpenMP compression loop *)

(** The runtime may run iteration 4 before iteration 0; the first element of
    the result is then the fifth sample, not the first. *)
Lemma OpenMP_compress_order_visible (data : list Z) (e : Env) (m : Machine) :
  (5 <= length data)%nat ->
  let order :=
    4%nat :: 0%nat :: ((fun k => (4 * k)%nat) <$> seq 2 ((length data + 3) / 4 - 2)) in
  OpenMP.omp_schedule (length data) 4 order /\
  fst (OpenMP.compressData order data e m) !! 0%nat = data !! 4%nat /\
  fst (Seq.compressData data e m) !! 0%nat = data !! 0%nat.
Proof.
  intros Hlen order. split; [|split].
  - unfold OpenMP.omp_schedule, OpenMP.omp_iterations, order.
    replace ((length data + 4 - 1) / 4)%nat
      with (S (S ((length data + 3) / 4 - 2))) by lia.
    cbn [seq fmap list_fmap]. apply perm_swap.
  - unfold OpenMP.compressData, bind, ret. rewrite log_run. cbn [fst].
    rewrite compress_iterations_spec. unfold order.
    cbn [app fmap list_fmap lookup list_lookup].
    symmetry. apply list_lookup_lookup_total_lt. lia.
  - rewrite Seq_compressData_result. apply every_4th_lookup.
Qed.

(** ** C5: the three files on one stream *)

(** C5. The threaded cycle does not always hand [sendToCloud] the sequence
    the sequential cycle does.  The node is the one [main] builds, the
    generator returns 0 at every call.  The sequential file compresses the
    generated samples, the first of which is [0 - 2^23].  In the threaded
    file, when the compressor thread takes its first two steps before the
    generator thread starts, the first compressed element is the 0 the
    [audio] vector was created with. *)
Theorem C5_threaded_cycle_compresses_unwritten_samples :
  let e := mkEnv (fun _ _ => 0) (fun _ => 0) in
  let m := mkMachine (default_node "sensor_001") 1 0 0 [] in
  let sequential := (audio <- Seq.generateAudioData ;; Seq.compressData audio) in
  let threaded :=
    fork_join [T2; T2] (replicate (buffer_size (default_node "sensor_001")) 0) [] in
  fst (sequential e m) !! 0%nat = Some (-8388608) /\
  compressed (fst (threaded e m)) !! 0%nat = Some 0 /\
  MultiThread.runCycle [] e m = Seq.runCycle e m.
Proof.
  intros e m sequential threaded.
  assert (Hsize : (0 < buffer_size (default_node "sensor_001"))%nat).
  { unfold buffer_size. cbn [sample_rate duration default_node].
    change (wrap32 (400000 * 1)) with 400000. lia. }
  split; [|split].
  - unfold sequential, bind. rewrite Seq_generateAudioData_run. cbn zeta.
    rewrite Seq_compressData_result, every_4th_lookup.
    unfold filled. rewrite list_lookup_imap.
    rewrite lookup_replicate_2 by exact Hsize.
    reflexivity.
  - unfold threaded. rewrite fork_join_compress_first
      by (rewrite length_replicate; exact Hsize).
    by rewrite lookup_total_replicate_2 by exact Hsize.
  - apply MultiThread_runCycle_in_turn.
Qed.

(** *** The generated samples do not depend on the schedule *)

Lemma filled_ext e m m' i range data :
  rng_seed m = rng_seed m' -> rng_drawn m = rng_drawn m' ->
  filled e m i range data = filled e m' i range data.
Proof. intros Hs Hd. unfold filled. by rewrite Hs, Hd. Qed.

Lemma gen_inv_step e m0 audio0 t p mc :
  gen_inv e m0 audio0 p mc ->
  gen_inv e m0 audio0 (fst (step t p e mc)) (snd (step t p e mc)).
Proof.
  intros (Hthis & Hseed & Hlen & Hpc). destruct t; cbn [step].
  - unfold step_generate. destruct (gen_pc p) as [|i|] eqn:Hgen.
    + destruct Hpc as [Haudio Hdrawn].
      unfold bind, get_this, ret. rewrite log_run.
      unfold gen_inv. cbn [fst snd this rng_seed rng_drawn gen_pc gen_range audio].
      rewrite Hthis, Haudio. repeat split; try done; try lia.
      apply filled_ext; cbn [rng_seed rng_drawn]; [done|lia].
    + destruct Hpc as (Hrange & Hi & Hdrawn & Hfilled).
      case_bool_decide as Hguard.
      * unfold bind, ret. rewrite rand_run, MultiThread_sample_eq.
        unfold gen_inv. cbn [fst snd gen_pc gen_range audio].
        rewrite length_insert. cbn [draws this rng_seed rng_drawn].
        repeat split; try done; try lia.
        rewrite <- Hfilled, Hrange. apply filled_step. lia.
      * unfold ret, gen_inv. cbn [fst snd gen_pc gen_range audio].
        repeat split; try done; try lia.
        rewrite <- Hfilled. symmetry. apply filled_past. lia.
    + unfold ret, gen_inv. cbn [fst snd]. by rewrite Hgen.
  - unfold step_compress. destruct (comp_pc p) as [|i|].
    + unfold bind, ret. rewrite log_run.
      unfold gen_inv. cbn [fst snd this rng_seed rng_drawn gen_pc gen_range audio].
      repeat split; done.
    + case_bool_decide; unfold ret, gen_inv; cbn [fst snd gen_pc gen_range audio];
        repeat split; done.
    + unfold ret, gen_inv. cbn [fst snd]. repeat split; done.
Qed.

Lemma gen_inv_run_schedule e m0 audio0 : forall sched p mc,
  gen_inv e m0 audio0 p mc ->
  gen_inv e m0 audio0 (fst (run_schedule sched p e mc)) (snd (run_schedule sched p e mc)).
Proof.
  induction sched as [|t sched IH]; intros p mc Hinv; cbn [run_schedule]; [done|].
  unfold bind. pose proof (gen_inv_step e m0 audio0 t p mc Hinv) as Hstep.
  destruct (step t p e mc) as [p' mc']. by apply IH.
Qed.

Lemma gen_inv_join e m0 audio0 t : forall fuel p mc,
  gen_inv e m0 audio0 p mc ->
  gen_inv e m0 audio0 (fst (join fuel t p e mc)) (snd (join fuel t p e mc)).
Proof.
  induction fuel as [|fuel IH]; intros p mc Hinv; cbn [join]; [done|].
  unfold bind. pose proof (gen_inv_step e m0 audio0 t p mc Hinv) as Hstep.
  destruct (step t p e mc) as [p' mc']. by apply IH.
Qed.

(** Whatever the schedule, the [audio] vector ends as the generator method
    alone would leave it, and the generator has made one draw per element. *)
Lemma fork_join_generated sched audio0 e m :
  let r := fork_join sched audio0 [] e m in
  audio (fst r) = fst (MultiThread.generateAudioData audio0 e m) /\
  rng_seed (snd r) = rng_seed m /\
  rng_drawn (snd r) = (rng_drawn m + length audio0)%nat.
Proof.
  cbn zeta.
  assert (Hgen : fst (MultiThread.generateAudioData audio0 e m)
                 = filled e m 0 (wrap32 (Z.shiftl 1 (bit_depth (this m) - 1))) audio0).
  { unfold MultiThread.generateAudioData, bind, get_this. rewrite log_run.
    rewrite MultiThread_fill_loop_eq, fill_loop_run by lia. cbn [fst this].
    by apply filled_ext. }
  pose proof (fork_join_returns sched audio0 [] e m) as [Hdone _].
  assert (Hinv : gen_inv e m audio0 (fst (fork_join sched audio0 [] e m))
                                    (snd (fork_join sched audio0 [] e m))).
  { unfold fork_join, bind.
    pose proof (gen_inv_run_schedule e m audio0 sched
                  (mkPar Entry 0 Entry audio0 []) m) as H1.
    destruct (run_schedule sched _ e m) as [p1 m1].
    pose proof (gen_inv_join e m audio0 T1 (length audio0 + 2) p1 m1) as H2.
    destruct (join (length audio0 + 2) T1 p1 e m1) as [p2 m2].
    apply gen_inv_join, H2, H1. unfold gen_inv. cbn [gen_pc audio]. done. }
  destruct Hinv as (_ & Hseed & _ & Hpc). rewrite Hdone in Hpc.
  destruct Hpc as [Hdrawn Haudio]. by rewrite Hgen.
Qed.

(** ** More on the sequential file *)

Lemma filled_lookup e m range data i :
  filled e m 0 range data !! i =
  if bool_decide (i < length data)%nat
  then Some (Seq.sample (rand_seq e (rng_seed m) (rng_drawn m + i)) range)
  else None.
Proof.
  unfold filled. rewrite list_lookup_imap.
  destruct (decide (i < length data)%nat) as [Hi|Hi].
  - destruct (lookup_lt_is_Some_2 data i Hi) as [x ->].
    cbn [fmap option_fmap option_map]. rewrite !bool_decide_true by lia.
    by rewrite Nat.sub_0_r.
  - rewrite lookup_ge_None_2 by lia. cbn [fmap option_fmap option_map].
    by rewrite bool_decide_false.
Qed.

(** X1. [generateAudioData] of the sequential file makes element [i] of its
    vector from the [i]-th value the generator gives after the call starts,
    as [rand() % (2 * range) - range], and the vector has no other position;
    the call makes one draw per element, writes one log line, and leaves the
    seed and the node alone. *)
Theorem X1_generateAudioData_samples (e : Env) (m : Machine) :
  let n := buffer_size (this m) in
  let range := wrap32 (Z.shiftl 1 (bit_depth (this m) - 1)) in
  (forall i,
     fst (Seq.generateAudioData e m) !! i =
     if bool_decide (i < n)%nat
     then Some (Seq.sample (rand_seq e (rng_seed m) (rng_drawn m + i)) range)
     else None) /\
  snd (Seq.generateAudioData e m) =
    mkMachine (this m) (rng_seed m) (rng_drawn m + n) (S (ticks m))
      (console m ++ [Log (wall_clock e (ticks m)) "Wake: Generating dummy audio data..."]).
Proof.
  intros n range. rewrite Seq_generateAudioData_run. cbn [fst snd]. split.
  - intros i. rewrite filled_lookup, length_replicate. rewrite log_run.
    reflexivity.
  - rewrite log_run. reflexivity.
Qed.



(** At bit depth 31 the product [2 * range] does overflow. *)
Remark bit_depth_31_overflows :
  wrap32 (2 * wrap32 (Z.shiftl 1 (31 - 1))) = - 2 ^ 31.
Proof. reflexivity. Qed.

(** X8. One cycle of the sequential file, in full.  It writes the start
    line, the three stage lines, then on success the send line and the first
    120 characters of the payload of the compressed samples, on failure the
    two failure lines, then the sleep line, and sleeps 2 seconds.  The outcome
    is decided by the draw that follows the [sample_rate * duration] draws of
    the generation; the cycle makes these draws and one more, reads the clock
    7 times on success and 8 on failure, and changes nothing else. *)
Theorem X8_runCycle_trace (e : Env) (m : Machine) :
  let n := buffer_size (this m) in
  let compressed := every_4th (fst (Seq.generateAudioData e m)) in
  let ok := bool_decide (Z.rem (rand_seq e (rng_seed m) (rng_drawn m + n)) 10 < 9) in
  let t (k : nat) := wall_clock e (k + ticks m) in
  Seq.runCycle e m =
  (tt,
   mkMachine (this m) (rng_seed m) (S (rng_drawn m + n))
     ((if ok then 7 else 8) + ticks m)
     (console m ++
      [Log (t 0%nat) "---- Sensor Cycle Start ----";
       Log (t 1%nat) "Wake: Generating dummy audio data...";
       Log (t 2%nat) "Processing: Compressing audio data...";
       Log (t 3%nat) "Transmit: Preparing payload..."] ++
      (if ok
       then [Log (t 5%nat) "Transmit: Sending data to cloud...";
             Stdout (substring 0 120
                       (Seq.build_payload (id (this m)) (t 4%nat) compressed)
                     +:+ " ...");
             Log (t 6%nat) ("Sleep: Entering sleep mode..." +:+ newline)]
       else [Log (t 5%nat) "Transmit: Failed to send data.";
             Log (t 6%nat) "Error: Transmission failed. Logging for retry.";
             Log (t 7%nat) ("Sleep: Entering sleep mode..." +:+ newline)]) ++
      [Sleep 2])).
Proof.
  intros n compressed ok t. subst compressed.
  unfold Seq.runCycle, bind.
  rewrite log_run, !Seq_generateAudioData_run. cbn zeta.
  rewrite Seq_compressData_run, Seq_sendToCloud_run. cbn zeta.
  rewrite !log_run.
  cbn [fst snd this rng_seed rng_drawn ticks console draws].
  fold n. fold ok. unfold emit, ret.
  destruct ok; cbn [negb]; rewrite !log_run;
    cbn [fst snd this rng_seed rng_drawn ticks console];
    rewrite <- !app_assoc; reflexivity.
Qed.

Lemma buffer_size_default node_id :
  Z.of_nat (buffer_size (default_node node_id)) = 400000.
Proof.
  unfold buffer_size. cbn [default_node sample_rate duration].
  change (wrap32 (400000 * 1)) with 400000. lia.
Qed.

(** X7. [main] of the sequential file builds the node [sensor_001] with the
    constructor's values, seeds the generator with the time it reads (as an
    [unsigned]), runs exactly three cycles, which draw [3 * 400001] values
    between them, and returns 0.  The node ends as the constructor left it. *)
Theorem X7_main_three_cycles (e : Env) (m : Machine) :
  fst (Seq.main e m) = 0 /\
  this (snd (Seq.main e m)) = default_node "sensor_001" /\
  rng_seed (snd (Seq.main e m)) = wall_clock e (ticks m) `mod` 2 ^ 32 /\
  Z.of_nat (rng_drawn (snd (Seq.main e m))) = 1200003.
Proof.
  unfold Seq.main, bind.
  assert (Hnew : new_SensorNode "sensor_001" e m =
                 (tt, mkMachine (default_node "sensor_001")
                        (wall_clock e (ticks m) `mod` 2 ^ 32) 0 (S (ticks m)) (console m)))
    by reflexivity.
  rewrite Hnew. set (m0 := mkMachine _ _ _ _ _).
  cbn [Seq.cycles]. unfold bind.
  change (wrap32 (0 + 1)) with 1. change (wrap32 (1 + 1)) with 2.
  rewrite !bool_decide_true by lia.
  pose proof (Seq_runCycle_rng e m0) as [Hs1 Hd1].
  pose proof (keeps_this_runCycle e m0) as Ht1.
  destruct (Seq.runCycle e m0) as [[] m1]. cbn [snd] in *.
  pose proof (Seq_runCycle_rng e m1) as [Hs2 Hd2].
  pose proof (keeps_this_runCycle e m1) as Ht2.
  destruct (Seq.runCycle e m1) as [[] m2]. cbn [snd] in *.
  pose proof (Seq_runCycle_rng e m2) as [Hs3 Hd3].
  pose proof (keeps_this_runCycle e m2) as Ht3.
  destruct (Seq.runCycle e m2) as [[] m3]. cbn [snd fst ret] in *.
  pose proof (buffer_size_default "sensor_001") as Hbuf.
  rewrite Ht2, Ht1 in Ht3. rewrite Ht1 in Ht2.
  rewrite Ht2 in Hd3. rewrite Ht1 in Hd2.
  change (this m0) with (default_node "sensor_001") in *.
  change (rng_drawn m0) with 0%nat in Hd1.
  change (rng_seed m0) with (wall_clock e (ticks m) `mod` 2 ^ 32) in Hs1.
  clear Hnew. clearbody m0.
  set (b := buffer_size (default_node "sensor_001")) in *. clearbody b.
  split; [done|]. split; [congruence|]. split; [congruence|]. lia.
Qed.

(** ** More on the threaded file *)

Lemma MultiThread_generateAudioData_run data e m :
  let m1 := snd (log "Wake: Generating dummy audio data..." e m) in
  let range := wrap32 (Z.shiftl 1 (bit_depth (this m) - 1)) in
  MultiThread.generateAudioData data e m =
  (filled e m1 0 range data, draws (length data) m1).
Proof.
  cbn zeta. unfold MultiThread.generateAudioData, bind, get_this.
  rewrite log_run. cbn [snd this].
  rewrite MultiThread_fill_loop_eq, fill_loop_run by lia.
  by rewrite Nat.sub_0_r.
Qed.

Lemma cycles_in_turn e : forall fuel i m,
  MultiThread.cycles (fun _ => []) fuel i e m = Seq.cycles fuel i e m.
Proof.
  induction fuel as [|fuel IH]; intros i m;
    cbn [MultiThread.cycles Seq.cycles]; [done|].
  case_bool_decide; [|done].
  unfold bind. rewrite MultiThread_runCycle_in_turn.
  destruct (Seq.runCycle e m) as [[] m1]. apply IH.
Qed.

(** X3. When the scheduler runs the two threads in turn, the generator to
    its end before the compressor starts, a cycle of the threaded file is a
    cycle of the sequential file: same return, same machine, same console.
    So is the whole of [main] when every cycle is scheduled that way. *)
Theorem X3_threads_in_turn_are_sequential (e : Env) (m : Machine) :
  MultiThread.runCycle [] e m = Seq.runCycle e m /\
  MultiThread.main (fun _ => []) e m = Seq.main e m.
Proof.
  split; [apply MultiThread_runCycle_in_turn|].
  unfold MultiThread.main, Seq.main, bind.
  destruct (new_SensorNode "sensor_001" e m) as [[] m0].
  by rewrite cycles_in_turn.
Qed.

Lemma sendToCloud_outcome data e m :
  fst (Seq.sendToCloud data e m)
  = bool_decide (Z.rem (rand_seq e (rng_seed m) (rng_drawn m)) 10 < 9).
Proof. by rewrite Seq_sendToCloud_run. Qed.

(** X2. Whatever the scheduler does, the [audio] vector the two joins leave
    is the vector [generateAudioData] of the sequential file returns from the
    same generator state, the generator has made the same draws, the node is
    unchanged, and so [sendToCloud] called next returns what it returns in
    the sequential cycle, whatever it is given to send. *)
Theorem X2_generation_is_schedule_independent (sched : list tid)
    (e : Env) (m : Machine) :
  let fj := fork_join sched (replicate (buffer_size (this m)) 0) [] e m in
  let sg := Seq.generateAudioData e m in
  audio (fst fj) = fst sg /\
  rng_seed (snd fj) = rng_seed (snd sg) /\
  rng_drawn (snd fj) = rng_drawn (snd sg) /\
  this (snd fj) = this m /\
  forall c1 c2,
    fst (MultiThread.sendToCloud c1 e (snd fj))
    = fst (Seq.sendToCloud c2 e (snd (Seq.compressData (fst sg) e (snd sg)))).
Proof.
  intros fj sg.
  pose proof (fork_join_generated sched (replicate (buffer_size (this m)) 0) e m)
    as (Haudio & Hseed & Hdrawn).
  fold fj in Haudio, Hseed, Hdrawn.
  rewrite length_replicate in Hdrawn.
  rewrite MultiThread_generateAudioData_run in Haudio. cbn [fst] in Haudio.
  subst sg. rewrite Seq_generateAudioData_run. cbn [fst snd].
  rewrite Seq_compressData_run, !log_run.
  cbn [snd draws this rng_seed rng_drawn].
  rewrite log_run in Haudio.
  split; [exact Haudio|].
  split; [done|]. split; [done|].
  split; [apply keeps_this_fork_join|].
  intros c1 c2. unfold MultiThread.sendToCloud.
  rewrite !sendToCloud_outcome. cbn [rng_seed rng_drawn].
  by rewrite Hseed, Hdrawn.
Qed.

(** *** What the compressor can read while the generator runs *)

Lemma step_invariant_run_schedule (I : Par -> Machine -> Prop) e :
  (forall t p m, I p m -> I (fst (step t p e m)) (snd (step t p e m))) ->
  forall sched p m, I p m ->
    I (fst (run_schedule sched p e m)) (snd (run_schedule sched p e m)).
Proof.
  intros Hstep. induction sched as [|t sched IH]; intros p m Hinv;
    cbn [run_schedule]; [done|].
  unfold bind. specialize (Hstep t p m Hinv).
  destruct (step t p e m) as [p' m']. by apply IH.
Qed.

Lemma step_invariant_join (I : Par -> Machine -> Prop) e t :
  (forall t p m, I p m -> I (fst (step t p e m)) (snd (step t p e m))) ->
  forall fuel p m, I p m ->
    I (fst (join fuel t p e m)) (snd (join fuel t p e m)).
Proof.
  intros Hstep. induction fuel as [|fuel IH]; intros p m Hinv; cbn [join]; [done|].
  unfold bind. specialize (Hstep t p m Hinv).
  destruct (step t p e m) as [p' m']. by apply IH.
Qed.

Lemma step_invariant_fork_join (I : Par -> Machine -> Prop) e sched audio0 out0 m :
  (forall t p m, I p m -> I (fst (step t p e m)) (snd (step t p e m))) ->
  I (mkPar Entry 0 Entry audio0 out0) m ->
  I (fst (fork_join sched audio0 out0 e m)) (snd (fork_join sched audio0 out0 e m)).
Proof.
  intros Hstep Hinit. unfold fork_join, bind.
  pose proof (step_invariant_run_schedule I e Hstep sched _ _ Hinit) as H1.
  destruct (run_schedule sched _ e m) as [p1 m1]. cbn [fst snd] in H1.
  pose proof (step_invariant_join I e T1 Hstep (length audio0 + 2) _ _ H1) as H2.
  destruct (join (length audio0 + 2) T1 p1 e m1) as [p2 m2].
  apply step_invariant_join; [exact Hstep|exact H2].
Qed.

Lemma race_inv_step e m0 audio0 t p mc :
  race_inv e m0 audio0 p mc ->
  race_inv e m0 audio0 (fst (step t p e mc)) (snd (step t p e mc)).
Proof.
  intros (Hgen & Hmix & Hcomp).
  split; [by apply gen_inv_step|].
  pose proof Hgen as (Hthis & Hseed & Hlen & Hpc).
  destruct Hcomp as [Helems Hcpc].
  destruct t; cbn [step].
  - (* the generator: the element written is the final one *)
    unfold step_generate. destruct (gen_pc p) as [|i|] eqn:Hgpc.
    + unfold bind, get_this, ret. rewrite log_run. cbn [fst audio].
      split; [exact Hmix|]. split; [exact Helems|exact Hcpc].
    + destruct Hpc as (Hrange & Hi & Hdrawn & Hfilled).
      case_bool_decide as Hguard.
      * unfold bind, ret. rewrite rand_run, MultiThread_sample_eq. cbn [fst audio].
        split; [|split; [exact Helems|exact Hcpc]].
        intros j. destruct (decide (j = i)) as [->|Hne].
        -- right. rewrite list_lookup_insert_eq by done.
           rewrite filled_lookup, bool_decide_true by lia.
           by rewrite Hrange, Hseed, Hdrawn.
        -- rewrite list_lookup_insert_ne by done. apply Hmix.
      * unfold ret. cbn [fst audio].
        split; [exact Hmix|]. split; [exact Helems|exact Hcpc].
    + unfold ret. cbn [fst]. split; [exact Hmix|]. split; [exact Helems|exact Hcpc].
  - (* the compressor: the element read is the original or the final one *)
    unfold step_compress. destruct (comp_pc p) as [|i|] eqn:Hcomp.
    + unfold bind, ret. rewrite log_run. cbn [fst audio].
      split; [exact Hmix|]. unfold comp_inv. cbn [compressed comp_pc].
      split; [exact Helems|]. rewrite Hcpc. cbn [length]. lia.
    + destruct Hcpc as [Hcount Hbound].
      case_bool_decide as Hguard.
      * unfold ret. cbn [fst audio].
        split; [exact Hmix|]. unfold comp_inv. cbn [compressed comp_pc].
        rewrite length_app. cbn [length]. split; [|lia].
        intros k Hk.
        destruct (decide (k < length (compressed p))%nat) as [Hold|Hnew].
        -- rewrite lookup_app_l by done. by apply Helems.
        -- assert (k = length (compressed p)) as -> by lia.
           rewrite lookup_app_r by lia. rewrite Nat.sub_diag. cbn [lookup list_lookup].
           rewrite <- Hcount.
           rewrite <- (list_lookup_lookup_total_lt (audio p) i) by done.
           apply Hmix.
      * unfold ret. cbn [fst audio].
        split; [exact Hmix|]. unfold comp_inv. cbn [compressed comp_pc].
        split; [exact Helems|]. lia.
    + unfold ret. cbn [fst]. split; [exact Hmix|]. split; [exact Helems|].
      by rewrite Hcomp.
Qed.

(** X4. Whatever the scheduler does, the compressor thread stores
    [ceil(n / 4)] elements, and element [k] is either what position [4 * k]
    of the [audio] vector held when the threads were started or the sample
    the generator writes there: the race can make the compressor miss a
    sample, never store anything else, and never change the count. *)
Theorem X4_compressed_under_any_schedule (sched : list tid) (audio0 : list Z)
    (e : Env) (m : Machine) :
  let p := fst (fork_join sched audio0 [] e m) in
  let final := fst (MultiThread.generateAudioData audio0 e m) in
  length (compressed p) = ((length audio0 + 3) / 4)%nat /\
  forall k,
    compressed p !! k = audio0 !! (4 * k)%nat \/
    compressed p !! k = final !! (4 * k)%nat.
Proof.
  intros p final.
  assert (Hinv : race_inv e m audio0 p (snd (fork_join sched audio0 [] e m))).
  { apply (step_invariant_fork_join (race_inv e m audio0)).
    - intros t p' m'. apply race_inv_step.
    - split; [|split].
      + unfold gen_inv. cbn [gen_pc audio]. done.
      + intros j. by left.
      + unfold comp_inv. cbn [compressed comp_pc length]. split; [lia|done]. }
  destruct Hinv as (_ & _ & Helems & Hcpc).
  pose proof (fork_join_returns sched audio0 [] e m) as [_ Hdone].
  fold p in Hdone. rewrite Hdone in Hcpc.
  split; [exact Hcpc|].
  intros k. destruct (decide (k < length (compressed p))%nat) as [Hk|Hk].
  - subst final. rewrite MultiThread_generateAudioData_run. cbn [fst].
    destruct (Helems k Hk) as [H|H]; [by left|right].
    rewrite H. by rewrite log_run.
  - left. rewrite !lookup_ge_None_2; [done|lia|lia].
Qed.

(** ** More on the OpenMP file *)

Lemma OpenMP_sample_eq : OpenMP.sample = Seq.sample.
Proof. reflexivity. Qed.

Lemma omp_iterations_4 (data : list Z) :
  (fun i => data !!! i) <$> OpenMP.omp_iterations (length data) 4 = every_4th data.
Proof.
  unfold OpenMP.omp_iterations, every_4th. rewrite <- list_fmap_compose.
  replace ((length data + 4 - 1) / 4)%nat with ((length data + 3) / 4)%nat by lia.
  done.
Qed.

Lemma omp_iterations_1 n : OpenMP.omp_iterations n 1 = seq 0 n.
Proof.
  unfold OpenMP.omp_iterations.
  replace ((n + 1 - 1) / 1)%nat with n by (rewrite Nat.div_1_r; lia).
  rewrite <- (list_fmap_id (seq 0 n)) at 2.
  apply list_fmap_ext. intros _ k _. cbn. lia.
Qed.

(** X5. For every order the OpenMP runtime may run the iterations in,
    [compressData] of the OpenMP file returns a rearrangement of what the
    sequential [compressData] returns: the same elements, each as often; in
    loop order the two calls are the same, log line included. *)
Theorem X5_openmp_compress_is_a_permutation (order : list nat) (data : list Z)
    (e : Env) (m : Machine) :
  OpenMP.omp_schedule (length data) 4 order ->
  fst (OpenMP.compressData order data e m) ≡ₚ fst (Seq.compressData data e m) /\
  OpenMP.compressData (OpenMP.omp_iterations (length data) 4) data e m
    = Seq.compressData data e m.
Proof.
  intros Hs. rewrite Seq_compressData_run. cbn [fst].
  unfold OpenMP.compressData, bind, ret. rewrite !log_run. cbn [fst snd].
  rewrite !compress_iterations_spec, !app_nil_l. split.
  - unfold OpenMP.omp_schedule in Hs. rewrite Hs. by rewrite omp_iterations_4.
  - by rewrite omp_iterations_4.
Qed.

Lemma X5_openmp_compress_is_a_permutation_witness :
  OpenMP.omp_schedule (length [10; 11; 12; 13; 14; 15; 16; 17; 18]) 4 [8; 0; 4]%nat /\
  fst (OpenMP.compressData [8; 0; 4]%nat [10; 11; 12; 13; 14; 15; 16; 17; 18]
         (mkEnv (fun _ _ => 0) (fun _ => 0))
         (mkMachine (default_node "sensor_001") 1 0 0 []))
  ≡ₚ fst (Seq.compressData [10; 11; 12; 13; 14; 15; 16; 17; 18]
            (mkEnv (fun _ _ => 0) (fun _ => 0))
            (mkMachine (default_node "sensor_001") 1 0 0 [])).
Proof.
  assert (Hs : OpenMP.omp_schedule (length [10; 11; 12; 13; 14; 15; 16; 17; 18]) 4
                 [8; 0; 4]%nat).
  { unfold OpenMP.omp_schedule. vm_compute.
    apply (Permutation_app_comm [8%nat] [0%nat; 4%nat]). }
  split; [exact Hs|].
  exact (proj1 (X5_openmp_compress_is_a_permutation _ _ _ _ Hs)).
Defined.

Lemma fill_iterations_other e range : forall order data m i,
  i ∉ order ->
  fst (OpenMP.fill_iterations order range data e m) !! i = data !! i.
Proof.
  induction order as [|j order IH]; intros data m i Hi; cbn [OpenMP.fill_iterations].
  - done.
  - apply not_elem_of_cons in Hi as [Hne Hi].
    unfold bind. rewrite rand_run. rewrite IH by done.
    by apply list_lookup_insert_ne.
Qed.

Lemma fill_iterations_at e range : forall order data m k i,
  NoDup order ->
  (forall j, j ∈ order -> (j < length data)%nat) ->
  order !! k = Some i ->
  fst (OpenMP.fill_iterations order range data e m) !! i
  = Some (Seq.sample (rand_seq e (rng_seed m) (rng_drawn m + k)) range).
Proof.
  induction order as [|j order IH]; intros data m k i Hnodup Hran Hk; [done|].
  apply NoDup_cons in Hnodup as [Hj Hnodup].
  cbn [OpenMP.fill_iterations]. unfold bind. rewrite rand_run, OpenMP_sample_eq.
  destruct k as [|k]; cbn [lookup list_lookup] in Hk.
  - injection Hk as ->. rewrite fill_iterations_other by done.
    rewrite list_lookup_insert_eq by (apply Hran; left).
    by rewrite Nat.add_0_r.
  - rewrite (IH _ _ k i); [|done| |done].
    + cbn [draws rng_seed rng_drawn]. do 3 f_equal. lia.
    + intros j' Hj'. rewrite length_insert. apply Hran. by right.
Qed.

Lemma fill_iterations_draws e range : forall order data m,
  snd (OpenMP.fill_iterations order range data e m) = draws (length order) m.
Proof.
  induction order as [|j order IH]; intros data m; cbn [OpenMP.fill_iterations length].
  - by rewrite draws_0.
  - unfold bind. rewrite rand_run, IH, draws_draws. done.
Qed.

Lemma fill_iterations_in_order e range : forall k i data m,
  (i + k = length data)%nat ->
  OpenMP.fill_iterations (seq i k) range data e m = Seq.fill_loop k i range data e m.
Proof.
  induction k as [|k IH]; intros i data m Hlen;
    cbn [seq OpenMP.fill_iterations Seq.fill_loop]; [done|].
  rewrite bool_decide_true by lia. unfold bind. rewrite rand_run, OpenMP_sample_eq.
  apply IH. rewrite length_insert. lia.
Qed.

(** A call of [generateAudioData] of the OpenMP file during which no other
    thread uses the generator. *)
Lemma OpenMP_generate_alone (order : list nat)
    (e : Env) (m : Machine) :
  OpenMP.omp_schedule (buffer_size (this m)) 1 order ->
  let range := wrap32 (Z.shiftl 1 (bit_depth (this m) - 1)) in
  (forall k, (k < buffer_size (this m))%nat ->
     fst (OpenMP.generateAudioData order e m) !! (order !!! k)
     = Some (Seq.sample (rand_seq e (rng_seed m) (rng_drawn m + k)) range)) /\
  fst (OpenMP.generateAudioData order e m) ≡ₚ fst (Seq.generateAudioData e m) /\
  rng_drawn (snd (OpenMP.generateAudioData order e m))
    = (rng_drawn m + buffer_size (this m))%nat /\
  OpenMP.generateAudioData (OpenMP.omp_iterations (buffer_size (this m)) 1) e m
    = Seq.generateAudioData e m.
Proof.
  intros Hs range. unfold OpenMP.omp_schedule in Hs. rewrite omp_iterations_1 in Hs.
  set (n := buffer_size (this m)) in *.
  assert (Hlen : length order = n) by (by rewrite Hs, length_seq).
  assert (Hnodup : NoDup order) by (rewrite Hs; apply NoDup_seq).
  assert (Hran : forall j, j ∈ order -> (j < length (replicate n 0%Z))%nat).
  { intros j Hj. rewrite Hs in Hj. apply elem_of_seq in Hj.
    rewrite length_replicate. lia. }
  assert (Hrun : forall order',
            OpenMP.generateAudioData order' e m =
            OpenMP.fill_iterations order' range (replicate n 0) e
              (snd (log "Wake: Generating dummy audio data..." e m))).
  { intros order'. unfold OpenMP.generateAudioData, bind, get_this.
    by rewrite log_run. }
  assert (Hat : forall k i, order !! k = Some i ->
            fst (OpenMP.generateAudioData order e m) !! i
            = Some (Seq.sample (rand_seq e (rng_seed m) (rng_drawn m + k)) range)).
  { intros k i Hk. rewrite Hrun.
    by rewrite (fill_iterations_at e range order _ _ k i Hnodup Hran Hk), log_run. }
  split; [|split; [|split]].
  - intros k Hk. apply Hat. apply list_lookup_lookup_total_lt. lia.
  - rewrite Seq_generateAudioData_run. cbn [fst]. fold n.
    set (r := fst (OpenMP.generateAudioData order e m)) in *.
    assert (Hr : length r = n).
    { unfold r. rewrite Hrun, fill_iterations_length. apply length_replicate. }
    assert (Hself : r = (fun i => r !!! i) <$> seq 0 n).
    { apply list_eq. intros i. rewrite list_lookup_fmap.
      destruct (decide (i < n)%nat).
      - rewrite lookup_seq_lt by done. cbn [fmap option_fmap option_map].
        apply list_lookup_lookup_total_lt. lia.
      - rewrite lookup_seq_ge by lia. apply lookup_ge_None_2. lia. }
    rewrite Hself, <- Hs. clear Hself.
    replace ((fun i => r !!! i) <$> order)
      with (filled e (snd (log "Wake: Generating dummy audio data..." e m)) 0 range
              (replicate n 0)); [done|].
    apply list_eq. intros k. rewrite filled_lookup, length_replicate, list_lookup_fmap.
    rewrite log_run. cbn [snd rng_seed rng_drawn].
    case_bool_decide as Hk.
    + destruct (lookup_lt_is_Some_2 order k ltac:(lia)) as [i Hi].
      rewrite Hi. cbn [fmap option_fmap option_map].
      rewrite (list_lookup_total_correct r i _ (Hat k i Hi)). done.
    + by rewrite lookup_ge_None_2 by lia.
  - rewrite Hrun, fill_iterations_draws, log_run. cbn [draws snd rng_drawn]. lia.
  - rewrite Hrun, omp_iterations_1.
    rewrite fill_iterations_in_order by (rewrite length_replicate; lia).
    unfold Seq.generateAudioData, bind, get_this. rewrite log_run.
    cbn [this]. fold (buffer_size (this m)). fold n.
    by rewrite length_replicate.
Qed.

(** ** The fill loop of the OpenMP file beside the other cycles: facts *)

Lemma shared_fill_alone e range : forall order data m,
  OpenMPShared.alone order ->
  OpenMPShared.fill_iterations order range data e m
  = OpenMP.fill_iterations (snd <$> order) range data e m.
Proof.
  induction order as [|[us i] order IH]; intros data m Halone;
    cbn [OpenMPShared.fill_iterations OpenMP.fill_iterations fmap list_fmap snd];
    [done|].
  apply Forall_cons in Halone as [Hus Halone]. cbn [fst] in Hus. subst us.
  cbn [OpenMPShared.others]. unfold bind, ret. rewrite rand_run. by apply IH.
Qed.

Lemma shared_fill_length e range : forall order data m,
  length (fst (OpenMPShared.fill_iterations order range data e m)) = length data.
Proof.
  induction order as [|[us i] order IH]; intros data m;
    cbn [OpenMPShared.fill_iterations]; [done|].
  unfold bind. destruct (OpenMPShared.others us e m) as [[] m1].
  rewrite rand_run. by rewrite IH, length_insert.
Qed.

(** X6. Take a call of [generateAudioData] of the OpenMP file whose
    iterations run in an order the runtime may choose, and suppose no other
    thread calls [rand()] or [srand()] while it runs.  Then the iteration run
    [k]-th stores the sample made of the [k]-th draw, the vector returned is
    a rearrangement of the vector the sequential file returns from the same
    generator state, and the generator has made one draw per element.
    Whatever the other threads do, the vector has [sample_rate * duration]
    elements. *)
Theorem X6_openmp_generate_alone_is_a_permutation
    (order : list (list OpenMPShared.rng_use * nat)) (e : Env) (m : Machine) :
  OpenMP.omp_schedule (buffer_size (this m)) 1 (snd <$> order) ->
  length (fst (OpenMPShared.generateAudioData order e m)) = buffer_size (this m) /\
  (OpenMPShared.alone order ->
   let range := wrap32 (Z.shiftl 1 (bit_depth (this m) - 1)) in
   (forall k, (k < buffer_size (this m))%nat ->
      fst (OpenMPShared.generateAudioData order e m) !! ((snd <$> order) !!! k)
      = Some (Seq.sample (rand_seq e (rng_seed m) (rng_drawn m + k)) range)) /\
   fst (OpenMPShared.generateAudioData order e m) ≡ₚ fst (Seq.generateAudioData e m) /\
   rng_seed (snd (OpenMPShared.generateAudioData order e m)) = rng_seed m /\
   rng_drawn (snd (OpenMPShared.generateAudioData order e m))
     = (rng_drawn m + buffer_size (this m))%nat).
Proof.
  intros Hs. split.
  - unfold OpenMPShared.generateAudioData, bind, get_this. rewrite log_run.
    cbn [this]. fold (buffer_size (this m)).
    by rewrite shared_fill_length, length_replicate.
  - intros Halone range.
    assert (Heq : OpenMPShared.generateAudioData order e m
                  = OpenMP.generateAudioData (snd <$> order) e m).
    { unfold OpenMPShared.generateAudioData, OpenMP.generateAudioData, bind, get_this.
      rewrite log_run. by apply shared_fill_alone. }
    rewrite Heq.
    pose proof (OpenMP_generate_alone (snd <$> order) e m Hs) as (H1 & H2 & H3 & _).
    split; [exact H1|]. split; [exact H2|]. split; [|exact H3].
    unfold OpenMP.generateAudioData, bind, get_this. rewrite log_run.
    rewrite fill_iterations_draws. reflexivity.
Qed.

Lemma X6_openmp_generate_alone_is_a_permutation_witness :
  let e := mkEnv (fun seed k => Z.of_nat k) (fun _ => 0) in
  let m := mkMachine (mkSensorNode "sensor_001" 3 24 1 3600) 1 0 0 [] in
  let order := [([], 2%nat); ([], 0%nat); ([], 1%nat)] in
  OpenMP.omp_schedule (buffer_size (this m)) 1 (snd <$> order) /\
  OpenMPShared.alone order /\
  fst (OpenMPShared.generateAudioData order e m) ≡ₚ fst (Seq.generateAudioData e m).
Proof.
  intros e m order.
  assert (Hs : OpenMP.omp_schedule (buffer_size (this m)) 1 (snd <$> order)).
  { unfold OpenMP.omp_schedule. vm_compute.
    apply (Permutation_app_comm [2%nat] [0%nat; 1%nat]). }
  assert (Halone : OpenMPShared.alone order) by (repeat constructor).
  split; [exact Hs|]. split; [exact Halone|].
  exact (proj1 (proj2 (proj2 (X6_openmp_generate_alone_is_a_permutation order e m Hs)
                         Halone))).
Defined.

(** With another thread drawing in between the vector is another one: the
    condition of X6 is needed. *)
Remark shared_generator_changes_the_vector :
  let e := mkEnv (fun seed k => Z.of_nat k) (fun _ => 0) in
  let m := mkMachine (mkSensorNode "sensor_001" 3 24 1 3600) 1 0 0 [] in
  fst (OpenMPShared.generateAudioData
         [([], 0%nat); ([OpenMPShared.OtherRand], 1%nat); ([], 2%nat)] e m)
  <> fst (Seq.generateAudioData e m).
Proof. vm_compute. discriminate. Qed.

(** ** The threaded file with [log] in its steps: facts *)

Lemma race_inv_machine_ext e m0 audio0 p mc mc' :
  this mc' = this mc -> rng_seed mc' = rng_seed mc -> rng_drawn mc' = rng_drawn mc ->
  race_inv e m0 audio0 p mc -> race_inv e m0 audio0 p mc'.
Proof.
  intros Hthis Hseed Hdrawn (Hgen & Hmix & Hcomp).
  split; [|by split].
  destruct Hgen as (H1 & H2 & H3 & Hpc).
  unfold gen_inv. rewrite Hthis, Hseed, Hdrawn.
  repeat split; try done.
  destruct (gen_pc p); [done| |done].
  destruct Hpc as (Hr & Hi & Hd & Hf). repeat split; try done.
  rewrite <- Hf. by apply filled_ext.
Qed.

(** A step of [log] leaves the node and the generator alone and only
    appends to [std::cout]. *)
Lemma log_step_frame msg k now e fm :
  let r := Threads.log_step msg k now e fm in
  this (Threads.base (snd r)) = this (Threads.base fm) /\
  rng_seed (Threads.base (snd r)) = rng_seed (Threads.base fm) /\
  rng_drawn (Threads.base (snd r)) = rng_drawn (Threads.base fm) /\
  console (Threads.base (snd r)) = console (Threads.base fm) /\
  exists l, Threads.cout (snd r) = Threads.cout fm ++ l.
Proof.
  destruct k as [|[|[|[|[|[|k]]]]]]; cbn; repeat split; try done;
    try (by eexists); exists []; by rewrite app_nil_r.
Qed.

(** [log] returns from step 6 on only, and step 5 is the one that inserts the
    message. *)
Lemma log_step_next msg k now e fm :
  match fst (Threads.log_step msg k now e fm) with
  | Some (k', _) =>
      (k < 6)%nat /\ k' = S k /\
      ((6 <= k')%nat ->
       Threads.cout (snd (Threads.log_step msg k now e fm))
       = Threads.cout fm ++ [Threads.Text msg])
  | None => (6 <= k)%nat
  end.
Proof.
  destruct k as [|[|[|[|[|[|k]]]]]]; cbn; repeat split; try lia.
Qed.

Lemma threads_step_race e m0 audio0 t fp fm :
  race_inv e m0 audio0 (Threads.par fp) (Threads.base fm) ->
  race_inv e m0 audio0 (Threads.par (fst (Threads.step t fp e fm)))
                       (Threads.base (snd (Threads.step t fp e fm))).
Proof.
  intros Hinv. destruct t; cbn [Threads.step].
  - unfold Threads.step_generate.
    destruct (gen_pc (Threads.par fp)) as [|i|] eqn:Hpc.
    + pose proof (log_step_frame "Wake: Generating dummy audio data..."
                    (fst (Threads.gen_at fp)) (snd (Threads.gen_at fp)) e fm)
        as (Hthis & Hseed & Hdrawn & _ & _).
      destruct (Threads.log_step _ _ _ e fm) as [[at'|] fm']; cbn [fst snd] in *.
      * by apply (race_inv_machine_ext e m0 audio0 _ (Threads.base fm)).
      * pose proof (race_inv_step e m0 audio0 T1 _ _ Hinv) as Hstep.
        cbn [step] in Hstep. unfold MultiThread.step_generate in Hstep.
        rewrite Hpc in Hstep. unfold bind, get_this, ret in Hstep.
        rewrite log_run in Hstep. cbn [fst snd this] in Hstep.
        rewrite Hthis.
        eapply race_inv_machine_ext; [| | |exact Hstep]; by cbn.
    + pose proof (race_inv_step e m0 audio0 T1 _ _ Hinv) as Hstep.
      cbn [step] in Hstep.
      destruct (MultiThread.step_generate (Threads.par fp) e (Threads.base fm)).
      exact Hstep.
    + pose proof (race_inv_step e m0 audio0 T1 _ _ Hinv) as Hstep.
      cbn [step] in Hstep.
      destruct (MultiThread.step_generate (Threads.par fp) e (Threads.base fm)).
      exact Hstep.
  - unfold Threads.step_compress.
    destruct (comp_pc (Threads.par fp)) as [|i|] eqn:Hpc.
    + pose proof (log_step_frame "Processing: Compressing audio data..."
                    (fst (Threads.comp_at fp)) (snd (Threads.comp_at fp)) e fm)
        as (Hthis & Hseed & Hdrawn & _ & _).
      destruct (Threads.log_step _ _ _ e fm) as [[at'|] fm']; cbn [fst snd] in *.
      * by apply (race_inv_machine_ext e m0 audio0 _ (Threads.base fm)).
      * pose proof (race_inv_step e m0 audio0 T2 _ _ Hinv) as Hstep.
        cbn [step] in Hstep. unfold MultiThread.step_compress in Hstep.
        rewrite Hpc in Hstep. unfold bind, ret in Hstep.
        rewrite log_run in Hstep. cbn [fst snd] in Hstep.
        eapply race_inv_machine_ext; [| | |exact Hstep]; by cbn.
    + pose proof (race_inv_step e m0 audio0 T2 _ _ Hinv) as Hstep.
      cbn [step] in Hstep.
      destruct (MultiThread.step_compress (Threads.par fp) e (Threads.base fm)).
      exact Hstep.
    + pose proof (race_inv_step e m0 audio0 T2 _ _ Hinv) as Hstep.
      cbn [step] in Hstep.
      destruct (MultiThread.step_compress (Threads.par fp) e (Threads.base fm)).
      exact Hstep.
Qed.

(** *** What a step of a worker leaves alone *)

Lemma threads_step_generate_frame fp e fm :
  let r := Threads.step T1 fp e fm in
  compressed (Threads.par (fst r)) = compressed (Threads.par fp) /\
  comp_pc (Threads.par (fst r)) = comp_pc (Threads.par fp) /\
  Threads.comp_at (fst r) = Threads.comp_at fp /\
  this (Threads.base (snd r)) = this (Threads.base fm) /\
  console (Threads.base (snd r)) = console (Threads.base fm) /\
  exists l, Threads.cout (snd r) = Threads.cout fm ++ l.
Proof.
  cbn [Threads.step]. unfold Threads.step_generate.
  destruct (gen_pc (Threads.par fp)) as [|i|] eqn:Hpc.
  - pose proof (log_step_frame "Wake: Generating dummy audio data..."
                  (fst (Threads.gen_at fp)) (snd (Threads.gen_at fp)) e fm)
      as (Hthis & _ & _ & Hcons & Hcout).
    by destruct (Threads.log_step _ _ _ e fm) as [[at'|] fm'].
  - pose proof (step_generate_frame (Threads.par fp) e (Threads.base fm)) as [H1 H2].
    pose proof (keeps_this_step T1 (Threads.par fp) e (Threads.base fm)) as H3.
    cbn [step] in *. unfold MultiThread.step_generate in *. rewrite Hpc in *.
    case_bool_decide; cbn in *; repeat split; try done;
      exists []; by rewrite app_nil_r.
  - unfold MultiThread.step_generate. rewrite Hpc. cbn. repeat split; try done.
    exists []; by rewrite app_nil_r.
Qed.

Lemma threads_step_compress_frame fp e fm :
  let r := Threads.step T2 fp e fm in
  audio (Threads.par (fst r)) = audio (Threads.par fp) /\
  gen_pc (Threads.par (fst r)) = gen_pc (Threads.par fp) /\
  gen_range (Threads.par (fst r)) = gen_range (Threads.par fp) /\
  Threads.gen_at (fst r) = Threads.gen_at fp /\
  this (Threads.base (snd r)) = this (Threads.base fm) /\
  rng_seed (Threads.base (snd r)) = rng_seed (Threads.base fm) /\
  rng_drawn (Threads.base (snd r)) = rng_drawn (Threads.base fm) /\
  console (Threads.base (snd r)) = console (Threads.base fm) /\
  exists l, Threads.cout (snd r) = Threads.cout fm ++ l.
Proof.
  cbn [Threads.step]. unfold Threads.step_compress.
  destruct (comp_pc (Threads.par fp)) as [|i|] eqn:Hpc.
  - pose proof (log_step_frame "Processing: Compressing audio data..."
                  (fst (Threads.comp_at fp)) (snd (Threads.comp_at fp)) e fm)
      as (Hthis & Hseed & Hdrawn & Hcons & Hcout).
    by destruct (Threads.log_step _ _ _ e fm) as [[at'|] fm'].
  - unfold MultiThread.step_compress. rewrite Hpc.
    case_bool_decide; cbn; repeat split; try done;
      exists []; by rewrite app_nil_r.
  - unfold MultiThread.step_compress. rewrite Hpc. cbn. repeat split; try done.
    exists []; by rewrite app_nil_r.
Qed.

(** *** The invariant of a run *)

Lemma line_written_grows at_pc k msg w l :
  line_written at_pc k msg w -> line_written at_pc k msg (w ++ l).
Proof. intros Hw Hpre. apply elem_of_app. left. by apply Hw. Qed.

Lemma threads_inv_step e m0 audio0 cout0 t fp fm :
  threads_inv e m0 audio0 cout0 fp fm ->
  threads_inv e m0 audio0 cout0
    (fst (Threads.step t fp e fm)) (snd (Threads.step t fp e fm)).
Proof.
  intros (Hrace & w & Hw & Hgen & Hcomp).
  split; [by apply threads_step_race|].
  destruct t.
  - pose proof (threads_step_generate_frame fp e fm)
      as (_ & Hcpc & Hcat & _ & _ & l & Hl).
    cbn zeta in *. exists (w ++ l).
    split; [by rewrite Hl, Hw, app_assoc|]. split.
    + clear Hcomp Hcpc Hcat. cbn [Threads.step] in *. unfold Threads.step_generate in *.
      destruct (gen_pc (Threads.par fp)) as [|i|] eqn:Hpc.
      * pose proof (log_step_next "Wake: Generating dummy audio data..."
                      (fst (Threads.gen_at fp)) (snd (Threads.gen_at fp)) e fm) as Hnext.
        destruct (Threads.log_step _ _ _ e fm) as [[[k' now']|] fm'];
          cbn [fst snd Threads.par Threads.gen_at gen_pc] in *.
        -- destruct Hnext as (_ & _ & Hmsg). rewrite Hpc.
           intros [Hne|Hk]; [done|].
           rewrite (Hmsg Hk) in Hl. apply app_inv_head in Hl as <-.
           apply elem_of_app. right. by left.
        -- apply line_written_grows. intros _. apply Hgen. by right.
      * apply line_written_grows. intros _. apply Hgen. by left.
      * apply line_written_grows. intros _. apply Hgen. by left.
    + rewrite Hcpc, Hcat. by apply line_written_grows.
  - pose proof (threads_step_compress_frame fp e fm)
      as (_ & Hgpc & _ & Hgat & _ & _ & _ & _ & l & Hl).
    cbn zeta in *. exists (w ++ l).
    split; [by rewrite Hl, Hw, app_assoc|]. split.
    + rewrite Hgpc, Hgat. by apply line_written_grows.
    + clear Hgen Hgpc Hgat. cbn [Threads.step] in *. unfold Threads.step_compress in *.
      destruct (comp_pc (Threads.par fp)) as [|i|] eqn:Hpc.
      * pose proof (log_step_next "Processing: Compressing audio data..."
                      (fst (Threads.comp_at fp)) (snd (Threads.comp_at fp)) e fm) as Hnext.
        destruct (Threads.log_step _ _ _ e fm) as [[[k' now']|] fm'];
          cbn [fst snd Threads.par Threads.comp_at comp_pc] in *.
        -- destruct Hnext as (_ & _ & Hmsg). rewrite Hpc.
           intros [Hne|Hk]; [done|].
           rewrite (Hmsg Hk) in Hl. apply app_inv_head in Hl as <-.
           apply elem_of_app. right. by left.
        -- apply line_written_grows. intros _. apply Hcomp. by right.
      * apply line_written_grows. intros _. apply Hcomp. by left.
      * apply line_written_grows. intros _. apply Hcomp. by left.
Qed.

Lemma threads_invariant_run_schedule (I : Threads.FPar -> Threads.FMachine -> Prop) e :
  (forall t fp fm, I fp fm ->
     I (fst (Threads.step t fp e fm)) (snd (Threads.step t fp e fm))) ->
  forall sched fp fm, I fp fm ->
    I (fst (Threads.run_schedule sched fp e fm)) (snd (Threads.run_schedule sched fp e fm)).
Proof.
  intros Hstep. induction sched as [|t sched IH]; intros fp fm Hinv;
    cbn [Threads.run_schedule]; [done|].
  unfold Threads.fbind. specialize (Hstep t fp fm Hinv).
  destruct (Threads.step t fp e fm) as [fp' fm']. by apply IH.
Qed.

Lemma threads_invariant_join (I : Threads.FPar -> Threads.FMachine -> Prop) e t :
  (forall t fp fm, I fp fm ->
     I (fst (Threads.step t fp e fm)) (snd (Threads.step t fp e fm))) ->
  forall fuel fp fm, I fp fm ->
    I (fst (Threads.join fuel t fp e fm)) (snd (Threads.join fuel t fp e fm)).
Proof.
  intros Hstep. induction fuel as [|fuel IH]; intros fp fm Hinv;
    cbn [Threads.join]; [done|].
  unfold Threads.fbind. specialize (Hstep t fp fm Hinv).
  destruct (Threads.step t fp e fm) as [fp' fm']. by apply IH.
Qed.

(** *** Both threads return *)

Lemma steps_left_0 t fp : steps_left t fp = 0%nat -> pc_of t fp = Done.
Proof.
  unfold steps_left, pc_of. destruct t.
  - destruct (gen_pc (Threads.par fp)); [lia|lia|done].
  - destruct (comp_pc (Threads.par fp)); [lia|lia|done].
Qed.

Lemma steps_left_bound t fp :
  (steps_left t fp <= length (audio (Threads.par fp)) + 8)%nat.
Proof.
  unfold steps_left. destruct t.
  - destruct (gen_pc (Threads.par fp)); lia.
  - destruct (comp_pc (Threads.par fp)); lia.
Qed.

Lemma steps_left_step t fp e fm :
  (steps_left t (fst (Threads.step t fp e fm)) <= steps_left t fp - 1)%nat.
Proof.
  unfold steps_left. destruct t; cbn [Threads.step].
  - unfold Threads.step_generate.
    destruct (gen_pc (Threads.par fp)) as [|i|] eqn:Hpc.
    + pose proof (log_step_next "Wake: Generating dummy audio data..."
                    (fst (Threads.gen_at fp)) (snd (Threads.gen_at fp)) e fm) as Hnext.
      destruct (Threads.log_step _ _ _ e fm) as [[[k' now']|] fm'];
        cbn [fst snd Threads.par Threads.gen_at gen_pc audio] in *.
      * rewrite Hpc. lia.
      * lia.
    + unfold MultiThread.step_generate. rewrite Hpc.
      case_bool_decide; unfold bind, ret; rewrite ?rand_run;
        cbn [fst snd Threads.par Threads.gen_at gen_pc audio];
        rewrite ?length_insert; lia.
    + unfold MultiThread.step_generate. rewrite Hpc. cbn. rewrite Hpc. lia.
  - unfold Threads.step_compress.
    destruct (comp_pc (Threads.par fp)) as [|i|] eqn:Hpc.
    + pose proof (log_step_next "Processing: Compressing audio data..."
                    (fst (Threads.comp_at fp)) (snd (Threads.comp_at fp)) e fm) as Hnext.
      destruct (Threads.log_step _ _ _ e fm) as [[[k' now']|] fm'];
        cbn [fst snd Threads.par Threads.comp_at comp_pc audio] in *.
      * rewrite Hpc. lia.
      * lia.
    + unfold MultiThread.step_compress. rewrite Hpc.
      case_bool_decide; unfold ret;
        cbn [fst snd Threads.par Threads.comp_at comp_pc audio]; lia.
    + unfold MultiThread.step_compress. rewrite Hpc. cbn. rewrite Hpc. lia.
Qed.

Lemma threads_join_returns e t : forall fuel fp fm,
  (steps_left t fp <= fuel)%nat ->
  pc_of t (fst (Threads.join fuel t fp e fm)) = Done.
Proof.
  induction fuel as [|fuel IH]; intros fp fm Hfuel; cbn [Threads.join].
  - apply steps_left_0. cbn. lia.
  - unfold Threads.fbind. pose proof (steps_left_step t fp e fm) as Hstep.
    destruct (Threads.step t fp e fm) as [fp' fm']. apply IH. cbn [fst] in Hstep. lia.
Qed.

Lemma threads_join_T2_keeps_gen e : forall fuel fp fm,
  gen_pc (Threads.par (fst (Threads.join fuel T2 fp e fm))) = gen_pc (Threads.par fp).
Proof.
  induction fuel as [|fuel IH]; intros fp fm; cbn [Threads.join]; [done|].
  unfold Threads.fbind.
  pose proof (threads_step_compress_frame fp e fm) as (_ & Hgpc & _).
  destruct (Threads.step T2 fp e fm) as [fp' fm']. rewrite IH. exact Hgpc.
Qed.

Lemma threads_step_length t fp e fm :
  length (audio (Threads.par (fst (Threads.step t fp e fm))))
  = length (audio (Threads.par fp)).
Proof.
  destruct t.
  - cbn [Threads.step]. unfold Threads.step_generate.
    destruct (gen_pc (Threads.par fp)) eqn:Hpc.
    + by destruct (Threads.log_step _ _ _ e fm) as [[?|] ?].
    + pose proof (step_length_audio T1 (Threads.par fp) e (Threads.base fm)) as H.
      cbn [step] in H. by destruct (MultiThread.step_generate _ e _).
    + pose proof (step_length_audio T1 (Threads.par fp) e (Threads.base fm)) as H.
      cbn [step] in H. by destruct (MultiThread.step_generate _ e _).
  - pose proof (threads_step_compress_frame fp e fm) as (H & _). cbn zeta in H.
    by rewrite H.
Qed.

(** For every schedule the two joins end with both threads returned, and the
    invariant holds of what they leave. *)
Lemma threads_fork_join_inv e audio0 sched fm :
  let r := Threads.fork_join sched audio0 [] e fm in
  threads_inv e (Threads.base fm) audio0 (Threads.cout fm) (fst r) (snd r) /\
  gen_pc (Threads.par (fst r)) = Done /\
  comp_pc (Threads.par (fst r)) = Done.
Proof.
  cbn zeta.
  set (I := threads_inv e (Threads.base fm) audio0 (Threads.cout fm)).
  assert (Hstep : forall t fp fm', I fp fm' ->
            I (fst (Threads.step t fp e fm')) (snd (Threads.step t fp e fm'))).
  { intros t fp fm'. apply threads_inv_step. }
  assert (Hinit : I (Threads.started audio0 []) fm).
  { split.
    - split; [|split].
      + unfold gen_inv. cbn. done.
      + intros j. by left.
      + unfold comp_inv. cbn. split; [lia|done].
    - exists []. rewrite app_nil_r. split; [done|].
      split; intros [H|H]; cbn in H; (done || lia). }
  set (L := fun (fp : Threads.FPar) (_ : Threads.FMachine) =>
              length (audio (Threads.par fp)) = length audio0).
  assert (HLstep : forall t fp fm', L fp fm' ->
            L (fst (Threads.step t fp e fm')) (snd (Threads.step t fp e fm'))).
  { intros t fp fm' Hl. unfold L. by rewrite threads_step_length. }
  unfold Threads.fork_join, Threads.fbind.
  pose proof (threads_invariant_run_schedule L e HLstep sched
                (Threads.started audio0 []) fm eq_refl) as HL1.
  pose proof (threads_invariant_run_schedule I e Hstep sched
                (Threads.started audio0 []) fm Hinit) as HI1.
  destruct (Threads.run_schedule sched _ e fm) as [fp1 fm1]. cbn [fst snd] in *.
  pose proof (threads_invariant_join L e T1 HLstep (length audio0 + 8) fp1 fm1 HL1) as HL2.
  pose proof (threads_invariant_join I e T1 Hstep (length audio0 + 8) fp1 fm1 HI1) as HI2.
  pose proof (threads_join_returns e T1 (length audio0 + 8) fp1 fm1) as HD1.
  pose proof (steps_left_bound T1 fp1) as HB1.
  destruct (Threads.join (length audio0 + 8) T1 fp1 e fm1) as [fp2 fm2].
  cbn [fst snd] in *.
  pose proof (threads_invariant_join I e T2 Hstep (length audio0 + 8) fp2 fm2 HI2) as HI3.
  pose proof (threads_join_returns e T2 (length audio0 + 8) fp2 fm2) as HD2.
  pose proof (threads_join_T2_keeps_gen e (length audio0 + 8) fp2 fm2) as HG.
  pose proof (steps_left_bound T2 fp2) as HB2.
  destruct (Threads.join (length audio0 + 8) T2 fp2 e fm2) as [fp3 fm3].
  cbn [fst snd] in *. unfold L in *.
  split; [exact HI3|]. split.
  - rewrite HG. apply HD1. lia.
  - apply HD2. lia.
Qed.

(** *** The caller's code around the two threads *)

Lemma lift_log msg e fm :
  Threads.lift (log msg) e fm =
  (tt,
   Threads.mkFMachine
     (mkMachine (this (Threads.base fm)) (rng_seed (Threads.base fm))
        (rng_drawn (Threads.base fm)) (S (ticks (Threads.base fm)))
        (console (Threads.base fm)))
     (wall_clock e (ticks (Threads.base fm)))
     (Threads.cout fm
      ++ Threads.render (Log (wall_clock e (ticks (Threads.base fm))) msg))).
Proof. unfold Threads.lift. rewrite log_run. reflexivity. Qed.

(** The steps of [log] taken in a row by a thread alone are the whole-line
    [log]. *)
Lemma log_alone_is_log audio0 out0 e fm :
  snd (Threads.join 7 T1 (Threads.started audio0 out0) e fm)
  = snd (Threads.lift (log "Wake: Generating dummy audio data...") e fm) /\
  snd (Threads.join 7 T2 (Threads.started audio0 out0) e fm)
  = snd (Threads.lift (log "Processing: Compressing audio data...") e fm).
Proof.
  rewrite !lift_log. split; cbn; by rewrite <- !app_assoc.
Qed.

Lemma lift_grows {A} (c : M A) e fm :
  exists l, Threads.cout (snd (Threads.lift c e fm)) = Threads.cout fm ++ l.
Proof. unfold Threads.lift. destruct (c e _) as [a m']. by eexists. Qed.

Lemma lift_sendToCloud_cout out e fm :
  exists rest,
    Threads.cout (snd (Threads.lift (MultiThread.sendToCloud out) e fm)) =
    Threads.cout fm
    ++ Threads.render (Log (wall_clock e (ticks (Threads.base fm)))
                           "Transmit: Preparing payload...")
    ++ rest.
Proof.
  unfold Threads.lift, MultiThread.sendToCloud. rewrite Seq_sendToCloud_run.
  cbn [snd Threads.cout console ticks app flat_map]. by eexists.
Qed.

Lemma send_cout out e fm :
  exists rest,
    Threads.cout
      (snd (Threads.fbind (Threads.lift (MultiThread.sendToCloud out))
              Threads.after_send e fm)) =
    Threads.cout fm
    ++ Threads.render (Log (wall_clock e (ticks (Threads.base fm)))
                           "Transmit: Preparing payload...")
    ++ rest.
Proof.
  unfold Threads.after_send, Threads.fbind.
  destruct (lift_sendToCloud_cout out e fm) as [r1 H1].
  destruct (Threads.lift (MultiThread.sendToCloud out) e fm) as [ok fm1].
  destruct (lift_grows (if negb ok
                        then log "Error: Transmission failed. Logging for retry."
                        else ret tt) e fm1) as [r2 H2].
  destruct (Threads.lift (if negb ok then _ else _) e fm1) as [[] fm2].
  destruct (lift_grows (log ("Sleep: Entering sleep mode..." +:+ newline)) e fm2)
    as [r3 H3].
  destruct (Threads.lift (log _) e fm2) as [[] fm3].
  destruct (lift_grows (emit (Sleep 2)) e fm3) as [r4 H4].
  cbn [snd] in *. rewrite H4, H3, H2, H1.
  exists (r1 ++ r2 ++ r3 ++ r4). by rewrite <- !app_assoc.
Qed.

(** *** What a step of one worker does not depend on *)

Lemma threads_step_generate_independent fp e fm
    (other_pc : pc) (other_out : list Z) (other_at : nat * Z) :
  let fp' :=
    Threads.mkFPar
      (mkPar (gen_pc (Threads.par fp)) (gen_range (Threads.par fp)) other_pc
             (audio (Threads.par fp)) other_out)
      (Threads.gen_at fp) other_at in
  gen_pc (Threads.par (fst (Threads.step T1 fp' e fm)))
    = gen_pc (Threads.par (fst (Threads.step T1 fp e fm))) /\
  gen_range (Threads.par (fst (Threads.step T1 fp' e fm)))
    = gen_range (Threads.par (fst (Threads.step T1 fp e fm))) /\
  audio (Threads.par (fst (Threads.step T1 fp' e fm)))
    = audio (Threads.par (fst (Threads.step T1 fp e fm))) /\
  Threads.gen_at (fst (Threads.step T1 fp' e fm))
    = Threads.gen_at (fst (Threads.step T1 fp e fm)) /\
  snd (Threads.step T1 fp' e fm) = snd (Threads.step T1 fp e fm).
Proof.
  cbn [Threads.step]. unfold Threads.step_generate.
  cbn [Threads.par Threads.gen_at Threads.comp_at gen_pc gen_range audio].
  destruct (gen_pc (Threads.par fp)) as [|i|] eqn:Hpc.
  - by destruct (Threads.log_step _ _ _ e fm) as [[at'|] fm'].
  - unfold MultiThread.step_generate. cbn [gen_pc gen_range audio]. rewrite Hpc.
    by case_bool_decide.
  - unfold MultiThread.step_generate. cbn [gen_pc gen_range audio]. rewrite Hpc.
    done.
Qed.

Lemma threads_step_compress_independent fp e fm
    (other_pc : pc) (other_range : Z) (other_at : nat * Z) (seed : Z) (drawn : nat) :
  let fp' :=
    Threads.mkFPar
      (mkPar other_pc other_range (comp_pc (Threads.par fp))
             (audio (Threads.par fp)) (compressed (Threads.par fp)))
      other_at (Threads.comp_at fp) in
  let fm' :=
    Threads.mkFMachine
      (mkMachine (this (Threads.base fm)) seed drawn (ticks (Threads.base fm))
                 (console (Threads.base fm)))
      (Threads.tm_static fm) (Threads.cout fm) in
  comp_pc (Threads.par (fst (Threads.step T2 fp' e fm')))
    = comp_pc (Threads.par (fst (Threads.step T2 fp e fm))) /\
  compressed (Threads.par (fst (Threads.step T2 fp' e fm')))
    = compressed (Threads.par (fst (Threads.step T2 fp e fm))) /\
  Threads.comp_at (fst (Threads.step T2 fp' e fm'))
    = Threads.comp_at (fst (Threads.step T2 fp e fm)) /\
  Threads.cout (snd (Threads.step T2 fp' e fm'))
    = Threads.cout (snd (Threads.step T2 fp e fm)) /\
  Threads.tm_static (snd (Threads.step T2 fp' e fm'))
    = Threads.tm_static (snd (Threads.step T2 fp e fm)).
Proof.
  cbn [Threads.step]. unfold Threads.step_compress.
  cbn [Threads.par Threads.gen_at Threads.comp_at comp_pc audio compressed].
  destruct (comp_pc (Threads.par fp)) as [|i|] eqn:Hpc.
  - destruct (Threads.comp_at fp) as [k now].
    destruct k as [|[|[|[|[|[|k]]]]]]; cbn; done.
  - unfold MultiThread.step_compress. cbn [comp_pc audio compressed]. rewrite Hpc.
    by case_bool_decide.
  - unfold MultiThread.step_compress. cbn [comp_pc audio compressed]. rewrite Hpc.
    done.
Qed.

(** ** C7: the fork and the two joins *)


